(** * nozomi.helpers: path construction and input normalisation

    A shallow embedding of [src/nozomi/helpers.py] and of the part of the
    Python runtime it calls ([str.lower], [str.strip], [int], [str],
    [format(_, 'x')], [re.search], [re.sub]).

    Modelling conventions.
    - A Python [str] is a Rocq [string] whose characters are the code
      points 0..255 (the Latin-1 range); [lower], [strip] and [int] follow
      CPython on that range.
    - Python integers are [Z]; [int], [str] and the template parser of
      [re] follow CPython 3.7 to 3.11, with the limit of 4300 digits that
      these interpreters put by default on conversions between integers
      and decimal text ([sys.get_int_max_str_digits()]).
    - A call either returns a value or raises: the [outcome] type.  The
      [try]/[except] blocks of the source are written out branch by
      branch, including the handlers that log and fall through.
    - Calls to the logger do not change any result and are left out. *)

From Stdlib Require Import Strings.String Strings.Ascii.
From Stdlib Require Import List Bool Arith ZArith NArith Lia.
From Stdlib Require Import DecimalString HexadecimalString DecimalPos DecimalZ.
Import ListNotations.

Open Scope string_scope.

(** ** Outcomes of a call *)

Inductive exn : Type :=
| InvalidTagFormat (msg : string)
| InvalidUrlFormat (args : list string)
| re_error            (* re.error *)
| IndexError
| ValueError
| TypeError
| UnboundLocalError.

Inductive outcome (A : Type) : Type :=
| Return (a : A)
| Raise (e : exn).

Arguments Return {A} a.
Arguments Raise {A} e.

Definition bind {A B : Type} (x : outcome A) (f : A -> outcome B) : outcome B :=
  match x with
  | Return a => f a
  | Raise e => Raise e
  end.

Notation "x <- c1 ;; c2" := (bind c1 (fun x => c2))
  (at level 61, c1 at next level, right associativity).

(** Values of the dynamically typed result of [parse_post_id]. *)
Inductive pyval : Type :=
| VInt (n : Z)
| VStr (s : string)
| VNone.

(** ** Characters *)

Definition ord (c : ascii) : N := N_of_ascii c.

Definition in_range (lo hi : N) (c : ascii) : bool :=
  ((lo <=? ord c) && (ord c <=? hi))%N.

Definition newline : ascii := "010"%char.
Definition backslash : ascii := "\"%char.

(** [c in cs] for a character and a string. *)
Fixpoint mem (c : ascii) (cs : string) : bool :=
  match cs with
  | EmptyString => false
  | String d cs' => (c =? d)%char || mem c cs'
  end.

(** [str.isupper] on one Latin-1 character: A-Z and the accented capitals. *)
Definition is_upper (c : ascii) : bool :=
  in_range 65 90 c || (in_range 192 222 c && negb (ord c =? 215)%N).

Definition lower_char (c : ascii) : ascii :=
  if is_upper c then ascii_of_N (ord c + 32) else c.

(** [str.isspace] on one Latin-1 character. *)
Definition is_space (c : ascii) : bool :=
  in_range 9 13 c || in_range 28 32 c || (ord c =? 133)%N || (ord c =? 160)%N.

Definition is_digit (c : ascii) : bool := in_range 48 57 c.

Definition is_ascii_letter (c : ascii) : bool :=
  in_range 65 90 c || in_range 97 122 c.

(** ** String methods *)

Definition single (c : ascii) : string := String c EmptyString.

Fixpoint smap (f : ascii -> ascii) (s : string) : string :=
  match s with
  | EmptyString => EmptyString
  | String c s' => String (f c) (smap f s')
  end.

Fixpoint sfilter (f : ascii -> bool) (s : string) : string :=
  match s with
  | EmptyString => EmptyString
  | String c s' => if f c then String c (sfilter f s') else sfilter f s'
  end.

Fixpoint sforall (f : ascii -> bool) (s : string) : bool :=
  match s with
  | EmptyString => true
  | String c s' => f c && sforall f s'
  end.

Definition is_empty (s : string) : bool :=
  match s with EmptyString => true | _ => false end.

(** [s.lower()] *)
Definition lower (s : string) : string := smap lower_char s.

Fixpoint lstrip (s : string) : string :=
  match s with
  | EmptyString => EmptyString
  | String c s' => if is_space c then lstrip s' else s
  end.

Fixpoint rstrip (s : string) : string :=
  match s with
  | EmptyString => EmptyString
  | String c s' =>
      let r := rstrip s' in
      if is_space c && is_empty r then EmptyString else String c r
  end.

(** [s.strip()] *)
Definition strip (s : string) : string := rstrip (lstrip s).

(** [s.startswith(c)] for one character, the test [s[0] == c] of the source. *)
Definition starts_with (c : ascii) (s : string) : bool :=
  match s with
  | String d _ => (d =? c)%char
  | EmptyString => false
  end.

(** ** Conversions between integers and text *)

(** The largest number of digits [int] and [str] convert. *)
Definition max_str_digits : nat := 4300.

Definition too_long (digits : nat) : bool := (max_str_digits <? digits)%nat.

(** The decimal text of an integer. *)
Definition decimal (n : Z) : string :=
  DecimalString.NilZero.string_of_int (Z.to_int n).

(** The number of digits of that text, the sign left out. *)
Definition digit_count (n : Z) : nat := String.length (decimal (Z.abs n)).

(** [str(n)] for an integer: [ValueError] above the limit of digits. *)
Definition str_of_int (n : Z) : outcome string :=
  if too_long (digit_count n) then Raise ValueError else Return (decimal n).

(** [format(n, 'x')]: lowercase hexadecimal, no prefix, no padding. *)
Definition format_x (n : N) : string :=
  HexadecimalString.NilZero.string_of_uint (N.to_hex_uint n).

(** The blanks [int] skips around a literal: the ASCII blanks, and the two
    Latin-1 blanks that CPython turns into a space beforehand. *)
Definition int_space (c : ascii) : bool :=
  in_range 9 13 c || (ord c =? 32)%N || (ord c =? 133)%N || (ord c =? 160)%N.

Inductive scan_state : Type := AtStart | AfterDigit | AfterUnderscore.

Definition digit_value (c : ascii) : Z := Z.of_N (ord c) - 48.

(** The digits of a literal, with single underscores between digits, then
    trailing blanks up to the end of the text; [cnt] counts the digits read,
    and a literal of too many digits is refused. *)
Fixpoint scan_digits (st : scan_state) (cnt : nat) (acc : Z) (s : string)
  : option Z :=
  let finish :=
    match st with
    | AfterDigit =>
        if sforall int_space s
        then (if too_long cnt then None else Some acc)
        else None
    | _ => None
    end in
  match s with
  | EmptyString => finish
  | String c s' =>
      if is_digit c
      then scan_digits AfterDigit (S cnt) (acc * 10 + digit_value c) s'
      else if (c =? "_")%char then
        match st with
        | AfterDigit => scan_digits AfterUnderscore cnt acc s'
        | _ => None
        end
      else finish
  end.

Fixpoint skip_int_space (s : string) : string :=
  match s with
  | EmptyString => EmptyString
  | String c s' => if int_space c then skip_int_space s' else s
  end.

(** [int(s)] in base ten; [None] stands for [ValueError]. *)
Definition int (s : string) : option Z :=
  match skip_int_space s with
  | String c s' =>
      if (c =? "-")%char then option_map Z.opp (scan_digits AtStart 0 0 s')
      else if (c =? "+")%char then scan_digits AtStart 0 0 s'
      else scan_digits AtStart 0 0 (String c s')
  | EmptyString => None
  end.

(** ** Regular expressions: the fragment of [re] the module uses

    A backtracking matcher with Python's priorities: a greedy star tries the
    longest run first, a lazy star the shortest, and the first success in
    that order is the match. *)

Inductive cclass : Type :=
| CAny                 (* .       : anything but a newline *)
| CAll                 (* [\s\S]  : anything *)
| CSet (cs : string).  (* [cs]    : one of the listed characters *)

Definition cmatch (k : cclass) (c : ascii) : bool :=
  match k with
  | CAny => negb (c =? newline)%char
  | CAll => true
  | CSet cs => mem c cs
  end.

Inductive regex : Type :=
| Lit (s : string)           (* a run of literal characters *)
| One (k : cclass)
| Star (k : cclass)          (* k*  *)
| StarLazy (k : cclass)      (* k*? *)
| Bol                        (* ^ *)
| Eol                        (* $ *)
| Group (i : nat) (r : regex)
| Seq (r1 r2 : regex).

(** Number of capture groups of a pattern. *)
Fixpoint ngroups (r : regex) : nat :=
  match r with
  | Group _ r1 => S (ngroups r1)
  | Seq r1 r2 => ngroups r1 + ngroups r2
  | _ => 0
  end.

(** [strip_prefix p s] is the rest of [s] after the prefix [p]. *)
Fixpoint strip_prefix (p s : string) : option string :=
  match p, s with
  | EmptyString, _ => Some s
  | String a p', String b s' =>
      if (a =? b)%char then strip_prefix p' s' else None
  | String _ _, EmptyString => None
  end.

(** [$] without MULTILINE: at the end, or before a final newline. *)
Definition at_eol (rest : string) : bool :=
  match rest with
  | EmptyString => true
  | String c EmptyString => (c =? newline)%char
  | _ => false
  end.

Definition groups : Type := list (nat * string).

Record rmatch : Type := mkMatch {
  m_start : nat;
  m_end : nat;
  m_text : string;       (* group 0 *)
  m_groups : groups
}.

Section Matcher.
Context {A : Type}.

(** A continuation receives the position reached, the text left and the
    groups captured so far. *)
Definition cont : Type := nat -> string -> groups -> option A.

Fixpoint star_greedy (f : ascii -> bool) (pos : nat) (rest : string)
         (k : nat -> string -> option A) : option A :=
  match rest with
  | String c rest' =>
      if f c then
        match star_greedy f (S pos) rest' k with
        | Some a => Some a
        | None => k pos rest
        end
      else k pos rest
  | EmptyString => k pos rest
  end.

Fixpoint star_lazy (f : ascii -> bool) (pos : nat) (rest : string)
         (k : nat -> string -> option A) : option A :=
  match k pos rest with
  | Some a => Some a
  | None =>
      match rest with
      | String c rest' => if f c then star_lazy f (S pos) rest' k else None
      | EmptyString => None
      end
  end.

Fixpoint run (r : regex) (pos : nat) (rest : string) (gs : groups)
         (k : cont) : option A :=
  match r with
  | Lit s =>
      match strip_prefix s rest with
      | Some rest' => k (pos + String.length s) rest' gs
      | None => None
      end
  | One c =>
      match rest with
      | String a rest' => if cmatch c a then k (S pos) rest' gs else None
      | EmptyString => None
      end
  | Star c => star_greedy (cmatch c) pos rest (fun p r' => k p r' gs)
  | StarLazy c => star_lazy (cmatch c) pos rest (fun p r' => k p r' gs)
  | Bol => if (pos =? 0)%nat then k pos rest gs else None
  | Eol => if at_eol rest then k pos rest gs else None
  | Group i r1 =>
      run r1 pos rest gs
          (fun p r' gs' => k p r' ((i, substring 0 (p - pos) rest) :: gs'))
  | Seq r1 r2 =>
      run r1 pos rest gs (fun p r' gs' => run r2 p r' gs' k)
  end.
End Matcher.

(** One attempt at position [pos]; [must_advance] refuses an empty match,
    as the engine does right after an empty match at the same place. *)
Definition match_at (r : regex) (pos : nat) (rest : string)
           (must_advance : bool) : option rmatch :=
  run r pos rest []
      (fun p _ gs =>
         if must_advance && (p =? pos)%nat then None
         else Some (mkMatch pos p (substring 0 (p - pos) rest) gs)).

Fixpoint search_from (r : regex) (pos : nat) (rest : string) : option rmatch :=
  match match_at r pos rest false with
  | Some m => Some m
  | None =>
      match rest with
      | String _ rest' => search_from r (S pos) rest'
      | EmptyString => None
      end
  end.

(** [re.search(r, s)] *)
Definition re_search (r : regex) (s : string) : option rmatch :=
  search_from r 0 s.

Fixpoint lookup (i : nat) (gs : groups) : option string :=
  match gs with
  | [] => None
  | (j, s) :: gs' => if (i =? j)%nat then Some s else lookup i gs'
  end.

(** [m.group(i)]; [None] when the group took no part in the match. *)
Definition group (m : rmatch) (i : nat) : option string :=
  match i with
  | 0 => Some (m_text m)
  | _ => lookup i (m_groups m)
  end.

(** *** Replacement templates *)

Inductive tpart : Type :=
| TLit (s : string)
| TGroup (i : nat).

Definition is_octal (c : ascii) : bool := in_range 48 55 c.

Definition octal_value (c : ascii) : N := ord c - 48.

(** The one-letter escapes of a template. *)
Definition escape (c : ascii) : option ascii :=
  if (c =? "a")%char then Some "007"%char
  else if (c =? "b")%char then Some "008"%char
  else if (c =? "f")%char then Some "012"%char
  else if (c =? "n")%char then Some "010"%char
  else if (c =? "r")%char then Some "013"%char
  else if (c =? "t")%char then Some "009"%char
  else if (c =? "v")%char then Some "011"%char
  else if (c =? backslash)%char then Some backslash
  else None.

(** The text before the first [>] and the text after it. *)
Fixpoint until_gt (s : string) : option (string * string) :=
  match s with
  | EmptyString => None
  | String c s' =>
      if (c =? ">")%char then Some (EmptyString, s')
      else match until_gt s' with
           | Some (name, rest) => Some (String c name, rest)
           | None => None
           end
  end.

(** A group reference is valid when the pattern has that group. *)
Definition group_ref (ng : nat) (n : Z) : outcome tpart :=
  if ((0 <=? n) && (n <=? Z.of_nat ng))%Z then Return (TGroup (Z.to_nat n))
  else Raise re_error.

(** [str.isidentifier] on Latin-1 text: a letter or [_], then letters,
    digits, [_] and the middle dot. *)
Definition xid_start (c : ascii) : bool :=
  is_ascii_letter c || (c =? "_")%char
  || (ord c =? 170)%N || (ord c =? 181)%N || (ord c =? 186)%N
  || in_range 192 214 c || in_range 216 246 c || in_range 248 255 c.

Definition xid_continue (c : ascii) : bool :=
  xid_start c || is_digit c || (ord c =? 183)%N.

Definition is_identifier (s : string) : bool :=
  match s with
  | EmptyString => false
  | String c s' => xid_start c && sforall xid_continue s'
  end.

(** The parts are parsed from left to right: the first error is the one
    raised. *)
Definition cons_part (p : outcome tpart) (ps : outcome (list tpart))
  : outcome (list tpart) :=
  a <- p ;; l <- ps ;; Return (a :: l).

(** The template parser.  It raises [re.error], or [IndexError] for a group
    name the pattern does not have.  [fuel] bounds the number of tokens,
    each of which takes at least a character. *)
Fixpoint parse_template (fuel : nat) (ng : nat) (t : string)
  : outcome (list tpart) :=
  match fuel with
  | 0 => Raise re_error
  | S fuel' =>
      let continue := parse_template fuel' ng in
      match t with
      | EmptyString => Return []
      | String c t1 =>
          if negb (c =? backslash)%char
          then cons_part (Return (TLit (single c))) (continue t1)
          else
            match t1 with
            | EmptyString => Raise re_error        (* bad escape (end of pattern) *)
            | String e t2 =>
                if (e =? "g")%char then
                  match t2 with
                  | String lt t3 =>
                      if (lt =? "<")%char then
                        match until_gt t3 with
                        | Some (name, t4) =>
                            if is_identifier name
                            then Raise IndexError   (* unknown group name *)
                            else
                              match int name with
                              | Some n =>
                                  cons_part (group_ref ng n) (continue t4)
                              | None => Raise re_error
                              end
                        | None => Raise re_error
                        end
                      else Raise re_error
                  | EmptyString => Raise re_error
                  end
                else if (e =? "0")%char then
                  match t2 with
                  | String d1 t3 =>
                      if is_octal d1 then
                        match t3 with
                        | String d2 t4 =>
                            if is_octal d2 then
                              cons_part
                                (Return (TLit (single (ascii_of_N
                                   (octal_value d1 * 8 + octal_value d2)))))
                                (continue t4)
                            else
                              cons_part
                                (Return (TLit (single (ascii_of_N (octal_value d1)))))
                                (continue t3)
                        | EmptyString =>
                            cons_part
                              (Return (TLit (single (ascii_of_N (octal_value d1)))))
                              (continue t3)
                        end
                      else cons_part (Return (TLit (single "000"%char))) (continue t2)
                  | EmptyString => Return [TLit (single "000"%char)]
                  end
                else if is_digit e then
                  match t2 with
                  | String d1 t3 =>
                      if is_digit d1 then
                        match t3 with
                        | String d2 t4 =>
                            if is_octal e && is_octal d1 && is_octal d2 then
                              let v := (octal_value e * 64 + octal_value d1 * 8
                                        + octal_value d2)%N in
                              if (v <=? 255)%N
                              then cons_part (Return (TLit (single (ascii_of_N v))))
                                             (continue t4)
                              else Raise re_error
                            else
                              cons_part
                                (group_ref ng (digit_value e * 10 + digit_value d1))
                                (continue t3)
                        | EmptyString =>
                            cons_part
                              (group_ref ng (digit_value e * 10 + digit_value d1))
                              (continue t3)
                        end
                      else cons_part (group_ref ng (digit_value e)) (continue t2)
                  | EmptyString => cons_part (group_ref ng (digit_value e)) (Return [])
                  end
                else
                  match escape e with
                  | Some x => cons_part (Return (TLit (single x))) (continue t2)
                  | None =>
                      if is_ascii_letter e then Raise re_error   (* bad escape *)
                      else cons_part (Return (TLit (String backslash (single e))))
                                     (continue t2)
                  end
            end
      end
  end.

(** The text a template stands for at one match; a group that took no part
    in the match counts as empty. *)
Fixpoint expand (ps : list tpart) (m : rmatch) : string :=
  match ps with
  | [] => EmptyString
  | TLit s :: ps' => s ++ expand ps' m
  | TGroup i :: ps' =>
      match group m i with
      | Some s => s ++ expand ps' m
      | None => expand ps' m
      end
  end.

(** *** Substitution *)

Inductive replacement : Type :=
| Template (t : string)
| Callable (f : rmatch -> outcome string).

(** The loop of [re.sub]: [skip] counts the characters of the text still
    covered by the match just replaced. *)
Fixpoint sub_loop (r : regex) (f : rmatch -> outcome string)
         (pos : nat) (rest : string) (skip : nat) : outcome string :=
  let copy :=
    match rest with
    | String c rest' => s <- sub_loop r f (S pos) rest' 0 ;; Return (String c s)
    | EmptyString => Return EmptyString
    end in
  let replace (m : rmatch) :=
    x <- f m ;;
    match rest with
    | String _ rest' =>
        s <- sub_loop r f (S pos) rest' (m_end m - pos - 1) ;; Return (x ++ s)
    | EmptyString => Return x
    end in
  match skip with
  | S n =>
      match rest with
      | String _ rest' => sub_loop r f (S pos) rest' n
      | EmptyString => Return EmptyString
      end
  | 0 =>
      match match_at r pos rest false with
      | None => copy
      | Some m =>
          if (m_end m =? pos)%nat then
            x <- f m ;;
            match match_at r pos rest true with
            | Some m' => s <- replace m' ;; Return (x ++ s)
            | None => s <- copy ;; Return (x ++ s)
            end
          else replace m
      end
  end.

(** [re.sub(r, repl, s)].  A template without a backslash is taken
    literally; any other is parsed first, before the text is searched. *)
Definition re_sub (r : regex) (repl : replacement) (s : string)
  : outcome string :=
  match repl with
  | Callable f => sub_loop r f 0 s 0
  | Template t =>
      if mem backslash t then
        ps <- parse_template (S (String.length t)) (ngroups r) t ;;
        sub_loop r (fun m => Return (expand ps m)) 0 s 0
      else sub_loop r (fun _ => Return t) 0 s 0
  end.

(** ** The module [nozomi.helpers] *)

(** The patterns of the module. *)

(** ['[/#%]'] *)
Definition invalid_chars_re : regex := One (CSet "/#%").

(** [r"post\/([\s\S]*?)\.html"] *)
Definition post_id_re : regex :=
  Seq (Lit "post/") (Seq (Group 1 (StarLazy CAll)) (Lit ".html")).

(** ['^.*(..)(.)$'] *)
Definition shard_re : regex :=
  Seq Bol
      (Seq (Star CAny)
           (Seq (Group 1 (Seq (One CAny) (One CAny)))
                (Seq (Group 2 (One CAny)) Eol))).

(** ['[;/?:@=&]'] *)
Definition reserved_re : regex := One (CSet ";/?:@=&").

(** The record the media path builder reads. *)
Record MediaMetaData : Type := mkMedia {
  dataid : string;
  is_video : bool;
  type : string
}.

Definition _validate_tag_sanitized (tag : string) : outcome unit :=
  if is_empty tag then
    Raise (InvalidTagFormat ("The tag '" ++ tag ++ "' is invalid. Cannot be empty."))
  else if starts_with "-" tag then
    Raise (InvalidTagFormat
             ("The tag '" ++ tag ++ "' is invalid. Cannot begin with character '-'"))
  else Return tt.

Definition sanitize_tag (tag : string) : outcome string :=
  let lowered := strip (lower tag) in
  match re_sub invalid_chars_re (Template EmptyString) lowered with
  | Raise (InvalidTagFormat msg) => Raise (InvalidTagFormat msg)
  | Raise _ => Return lowered          (* logged; the last assignment stands *)
  | Return sanitized_tag =>
      match _validate_tag_sanitized sanitized_tag with
      | Raise (InvalidTagFormat msg) => Raise (InvalidTagFormat msg)
      | Raise _ => Return sanitized_tag
      | Return _ => Return sanitized_tag
      end
  end.

Definition parse_post_id (url : string) : outcome pyval :=
  match re_search post_id_re url with
  | None =>                               (* None.group: AttributeError *)
      Raise (InvalidUrlFormat ["The provided URL %s could not be parsed."; url])
  | Some m =>
      match group m 1 with
      | None => Return VNone              (* int(None): TypeError, logged *)
      | Some post_id =>
          match int post_id with
          | Some n => Return (VInt n)
          | None => Return (VStr post_id) (* ValueError, logged *)
          end
      end
  end.

Definition _calculate_post_filepath (id : string) : outcome string :=
  if (String.length id <? 3)%nat then Return id
  else re_sub shard_re (Template ("\g<2>/\g<1>/" ++ id)) id.

(** The function [lambda c: f"%{format(ord(c.group(0)), 'x')}"]; [ord]
    wants a text of one character. *)
Definition convert_char_to_hex (c : rmatch) : outcome string :=
  match group c 0 with
  | Some (String a EmptyString) => Return ("%" ++ format_x (ord a))
  | _ => Raise TypeError
  end.

Definition _encode_tag (sanitized_tag : string) : outcome string :=
  re_sub reserved_re (Callable convert_char_to_hex) sanitized_tag.

Definition create_media_filepath (media : MediaMetaData) : outcome string :=
  let '(subdomain, url_type) :=
    if is_video media then ("v", type media)
    else if (type media =? "gif")%string then ("g", "gif")
    else ("w", "webp") in
  path <- _calculate_post_filepath (dataid media) ;;
  Return ("https://" ++ subdomain ++ ".nozomi.la/" ++ path ++ "." ++ url_type).

Definition create_tag_filepath (sanitized_tag : string) : outcome string :=
  let not_sanitized :=
    Raise (InvalidTagFormat "Tag must be sanitized before creating a filepath.") in
  match _validate_tag_sanitized sanitized_tag with
  | Raise (InvalidTagFormat _) => not_sanitized
  | Raise _ => Raise UnboundLocalError    (* logged; encoded_tag never bound *)
  | Return _ =>
      match _encode_tag sanitized_tag with
      | Raise (InvalidTagFormat _) => not_sanitized
      | Raise _ => Raise UnboundLocalError
      | Return encoded_tag =>
          Return ("https://j.nozomi.la/nozomi/" ++ encoded_tag ++ ".nozomi")
      end
  end.

Definition create_post_filepath (post_id : Z) : outcome string :=
  post_id <- str_of_int post_id ;;
  path <- _calculate_post_filepath post_id ;;
  Return ("https://j.nozomi.la/post/" ++ path ++ ".json").

(** ** The rules in the words of the specification *)

Definition is_invalid_char (c : ascii) : bool := mem c "/#%".

(** Lowercase, trim, then drop every [/], [#] and [%]. *)
Definition normalize (tag : string) : string :=
  sfilter (fun c => negb (is_invalid_char c)) (strip (lower tag)).

Definition is_reserved (c : ascii) : bool := mem c ";/?:@=&".

(** A reserved character becomes [%] and its code point in lowercase
    hexadecimal; any other character stays. *)
Definition encode_char (c : ascii) : string :=
  if is_reserved c then "%" ++ format_x (ord c) else single c.

Fixpoint encode (s : string) : string :=
  match s with
  | EmptyString => EmptyString
  | String c s' => encode_char c ++ encode s'
  end.

(** The validity state of a tag as the data model words it. *)
Definition is_sanitized (t : string) : Prop :=
  lower t = t /\ strip t = t /\ sforall (fun c => negb (is_invalid_char c)) t = true
  /\ t <> EmptyString /\ starts_with "-" t = false.

(** [a-z0-9] *)
Definition is_lower_alnum (c : ascii) : bool :=
  in_range 97 122 c || is_digit c.

(** The shard of an identifier: the last character, the two characters
    before it, then the identifier. *)
Definition shard_path (id : string) : string :=
  let n := String.length id in
  if (n <? 3)%nat then id
  else substring (n - 1) 1 id ++ "/" ++ substring (n - 3) 2 id ++ "/" ++ id.

(** A text without newline and without backslash. *)
Definition plain_char (c : ascii) : bool :=
  negb (c =? newline)%char && negb (c =? backslash)%char.

Definition plain (s : string) : bool := sforall plain_char s.

(** The decision table of the media path builder. *)
Definition subdomain (media : MediaMetaData) : string :=
  if is_video media then "v"
  else if (type media =? "gif")%string then "g" else "w".

Definition extension (media : MediaMetaData) : string :=
  if is_video media then type media
  else if (type media =? "gif")%string then "gif" else "webp".

(** The text up to the first occurrence of [sep], and the text after it. *)
Fixpoint split_first (sep s : string) : option (string * string) :=
  match strip_prefix sep s with
  | Some rest => Some (EmptyString, rest)
  | None =>
      match s with
      | String c s' =>
          match split_first sep s' with
          | Some (a, b) => Some (String c a, b)
          | None => None
          end
      | EmptyString => None
      end
  end.

(** The text between the first [post/] and the first [.html] after it. *)
Definition between (url : string) : option string :=
  match split_first "post/" url with
  | Some (_, rest) =>
      match split_first ".html" rest with
      | Some (x, _) => Some x
      | None => None
      end
  | None => None
  end.

(** The URL has a segment [post/<x>.html]. *)
Definition has_segment (url : string) : Prop :=
  exists a x b, url = a ++ "post/" ++ x ++ ".html" ++ b.

(** Substitution of single characters, one character at a time. *)
Fixpoint sub_chars (cs : string) (g : string -> outcome string) (s : string)
  : outcome string :=
  match s with
  | EmptyString => Return EmptyString
  | String c s' =>
      if mem c cs then
        x <- g (single c) ;; r <- sub_chars cs g s' ;; Return (x ++ r)
      else
        r <- sub_chars cs g s' ;; Return (String c r)
  end.

(** A literal text as template parts, one character each. *)
Fixpoint lits (s : string) : list tpart :=
  match s with
  | EmptyString => []
  | String c s' => TLit (single c) :: lits s'
  end.

(** Case analysis on the 256 characters. *)
Ltac by_cases_on_char c :=
  destruct c as [[] [] [] [] [] [] [] []]; vm_compute; try reflexivity;
  try discriminate; auto.

(** * Properties *)

(** ** Texts *)

Lemma append_nil_r (s : string) : s ++ EmptyString = s.
Proof. induction s as [|c s IH]; simpl; [reflexivity | now rewrite IH]. Qed.

Lemma append_assoc (a b c : string) : (a ++ b) ++ c = a ++ (b ++ c).
Proof. induction a as [|x a IH]; simpl; [reflexivity | now rewrite IH]. Qed.

Lemma length_append (a b : string) :
  String.length (a ++ b) = String.length a + String.length b.
Proof. induction a as [|x a IH]; simpl; [reflexivity | now rewrite IH]. Qed.

Lemma substring_0_0 (s : string) : substring 0 0 s = EmptyString.
Proof. destruct s; reflexivity. Qed.

Lemma substring_prefix (a b : string) :
  substring 0 (String.length a) (a ++ b) = a.
Proof.
  induction a as [|x a IH]; simpl.
  - apply substring_0_0.
  - now rewrite IH.
Qed.

Lemma substring_skip (a s : string) (k m : nat) :
  substring (String.length a + k) m (a ++ s) = substring k m s.
Proof. induction a as [|x a IH]; simpl; [reflexivity | exact IH]. Qed.

Lemma sforall_append (f : ascii -> bool) (a b : string) :
  sforall f (a ++ b) = sforall f a && sforall f b.
Proof.
  induction a as [|x a IH]; simpl; [reflexivity |].
  now rewrite IH, andb_assoc.
Qed.

Lemma sforall_impl (f g : ascii -> bool) (s : string) :
  (forall c, f c = true -> g c = true) ->
  sforall f s = true -> sforall g s = true.
Proof.
  intros Hfg. induction s as [|c s IH]; simpl; [reflexivity |].
  intros H. apply andb_true_iff in H as [Hc Hs].
  now rewrite (Hfg c Hc), IH.
Qed.

Lemma sfilter_id (f : ascii -> bool) (s : string) :
  sforall f s = true -> sfilter f s = s.
Proof.
  induction s as [|c s IH]; simpl; [reflexivity |].
  intros H. apply andb_true_iff in H as [Hc Hs].
  now rewrite Hc, IH.
Qed.

Lemma sforall_sfilter (f : ascii -> bool) (s : string) :
  sforall f (sfilter f s) = true.
Proof.
  induction s as [|c s IH]; simpl; [reflexivity |].
  destruct (f c) eqn:Hc; simpl; [now rewrite Hc | exact IH].
Qed.

(** Every text of three characters or more ends in three characters. *)
Lemma last_three (s : string) :
  3 <= String.length s ->
  exists a x y z, s = a ++ String x (String y (String z EmptyString)).
Proof.
  induction s as [|c s IH]; simpl; [lia |].
  intros H.
  destruct (le_lt_dec 3 (String.length s)) as [Hs | Hs].
  - destruct (IH Hs) as (a & x & y & z & ->).
    now exists (String c a), x, y, z.
  - destruct s as [|y [|z [|w s]]]; simpl in *; try lia.
    now exists EmptyString, c, y, z.
Qed.

(** ** Characters *)

Lemma lower_char_idem (c : ascii) : lower_char (lower_char c) = lower_char c.
Proof. by_cases_on_char c. Qed.

Lemma lower_alnum_fixed (c : ascii) :
  is_lower_alnum c = true ->
  lower_char c = c /\ is_space c = false /\ is_invalid_char c = false
  /\ (c =? "-")%char = false.
Proof. by_cases_on_char c. Qed.


(** ** Substituting single characters *)

Lemma succ_sub (p : nat) : S p - p = 1.
Proof. lia. Qed.

Lemma match_at_one (k : cclass) (pos : nat) (c : ascii) (s : string) (adv : bool) :
  match_at (One k) pos (String c s) adv =
  if cmatch k c then Some (mkMatch pos (S pos) (single c) []) else None.
Proof.
  unfold match_at; cbn [run].
  destruct (cmatch k c); [| reflexivity].
  rewrite succ_sub.
  replace (S pos =? pos)%nat with false by (symmetry; apply Nat.eqb_neq; lia).
  rewrite andb_false_r. simpl. now rewrite substring_0_0.
Qed.

(** [re.sub] with a one-character pattern works character by character. *)
Lemma sub_loop_one (cs : string) (f : rmatch -> outcome string)
      (g : string -> outcome string) :
  (forall m, f m = g (m_text m)) ->
  forall s pos, sub_loop (One (CSet cs)) f pos s 0 = sub_chars cs g s.
Proof.
  intros Hf. induction s as [|c s IH]; intros pos.
  - reflexivity.
  - cbn [sub_loop sub_chars]. rewrite match_at_one. cbn [cmatch].
    destruct (mem c cs).
    + cbn [m_end]. replace (S pos =? pos)%nat with false
        by (symmetry; apply Nat.eqb_neq; lia).
      rewrite Hf. cbn [m_text].
      replace (S pos - pos - 1) with 0 by lia.
      now rewrite IH.
    + now rewrite IH.
Qed.

Lemma sub_chars_delete (cs : string) (s : string) :
  sub_chars cs (fun _ => Return EmptyString) s =
  Return (sfilter (fun c => negb (mem c cs)) s).
Proof.
  induction s as [|c s IH]; simpl; [reflexivity |].
  destruct (mem c cs); simpl; rewrite IH; reflexivity.
Qed.

(** Line 40 of the source: the characters [/], [#], [%] are dropped. *)
Lemma re_sub_invalid_chars (s : string) :
  re_sub invalid_chars_re (Template EmptyString) s =
  Return (sfilter (fun c => negb (is_invalid_char c)) s).
Proof.
  unfold re_sub, invalid_chars_re. cbn [mem].
  rewrite (sub_loop_one _ _ (fun _ => Return EmptyString)) by reflexivity.
  apply sub_chars_delete.
Qed.

Lemma encode_tag_encode (s : string) : _encode_tag s = Return (encode s).
Proof.
  unfold _encode_tag, re_sub, reserved_re.
  rewrite (sub_loop_one _ _
             (fun t => match t with
                       | String a EmptyString => Return ("%" ++ format_x (ord a))
                       | _ => Raise TypeError
                       end)) by reflexivity.
  induction s as [|c s IH]; [reflexivity |].
  cbn [sub_chars encode]. unfold encode_char, is_reserved.
  destruct (mem c ";/?:@=&"); rewrite IH; reflexivity.
Qed.

(** ** Tags *)

Lemma sanitize_tag_unfold (tag : string) :
  sanitize_tag tag =
  if is_empty (normalize tag) then
    Raise (InvalidTagFormat
             ("The tag '" ++ normalize tag ++ "' is invalid. Cannot be empty."))
  else if starts_with "-" (normalize tag) then
    Raise (InvalidTagFormat
             ("The tag '" ++ normalize tag
                ++ "' is invalid. Cannot begin with character '-'"))
  else Return (normalize tag).
Proof.
  unfold sanitize_tag. rewrite re_sub_invalid_chars.
  fold (normalize tag). unfold _validate_tag_sanitized.
  destruct (is_empty (normalize tag)); [reflexivity |].
  destruct (starts_with "-" (normalize tag)); reflexivity.
Qed.

Lemma lower_idem (s : string) : lower (lower s) = lower s.
Proof.
  unfold lower. induction s as [|c s IH]; simpl; [reflexivity |].
  now rewrite lower_char_idem, IH.
Qed.

Lemma lower_lstrip (s : string) : lower (lstrip (lower s)) = lstrip (lower s).
Proof.
  unfold lower. induction s as [|c s IH]; simpl; [reflexivity |].
  destruct (is_space (lower_char c)); [exact IH |].
  simpl. rewrite lower_char_idem. f_equal. apply lower_idem.
Qed.

Lemma lower_rstrip (s : string) : lower s = s -> lower (rstrip s) = rstrip s.
Proof.
  unfold lower. induction s as [|c s IH]; simpl; [reflexivity |].
  intros H. injection H as Hc Hs.
  destruct (is_space c && is_empty (rstrip s)); [reflexivity |].
  simpl. now rewrite Hc, IH.
Qed.

Lemma lower_sfilter (f : ascii -> bool) (s : string) :
  lower s = s -> lower (sfilter f s) = sfilter f s.
Proof.
  unfold lower. induction s as [|c s IH]; simpl; [reflexivity |].
  intros H. injection H as Hc Hs.
  destruct (f c); simpl; [now rewrite Hc, IH | now apply IH].
Qed.

Lemma normalize_lower (tag : string) : lower (normalize tag) = normalize tag.
Proof.
  unfold normalize, strip.
  apply lower_sfilter, lower_rstrip, lower_lstrip.
Qed.

Lemma is_empty_false (s : string) : is_empty s = false -> s <> EmptyString.
Proof. destruct s; [discriminate | discriminate]. Qed.

Lemma lstrip_id (s : string) :
  sforall (fun c => negb (is_space c)) s = true -> lstrip s = s.
Proof.
  destruct s as [|c s]; simpl; [reflexivity |].
  intros H. apply andb_true_iff in H as [Hc _].
  now destruct (is_space c).
Qed.

Lemma rstrip_id (s : string) :
  sforall (fun c => negb (is_space c)) s = true -> rstrip s = s.
Proof.
  induction s as [|c s IH]; simpl; [reflexivity |].
  intros H. apply andb_true_iff in H as [Hc Hs].
  rewrite (IH Hs). now destruct (is_space c).
Qed.

(** A tag of lowercase letters and digits is left as it is. *)
Lemma normalize_lower_alnum (t : string) :
  sforall is_lower_alnum t = true -> normalize t = t.
Proof.
  intros H. unfold normalize, strip.
  assert (Hl : lower t = t).
  { unfold lower. induction t as [|c t IH]; simpl; [reflexivity |].
    simpl in H. apply andb_true_iff in H as [Hc Ht].
    destruct (lower_alnum_fixed c Hc) as (-> & _). now rewrite IH. }
  rewrite Hl.
  assert (Hs : sforall (fun c => negb (is_space c)) t = true).
  { apply (sforall_impl is_lower_alnum); [| exact H].
    intros c Hc. destruct (lower_alnum_fixed c Hc) as (_ & -> & _). reflexivity. }
  rewrite (lstrip_id t Hs), (rstrip_id t Hs).
  apply sfilter_id. apply (sforall_impl is_lower_alnum); [| exact H].
  intros c Hc. destruct (lower_alnum_fixed c Hc) as (_ & _ & -> & _). reflexivity.
Qed.

(** ** Finding the post identifier *)

Lemma strip_prefix_sound (p s r : string) :
  strip_prefix p s = Some r -> s = p ++ r.
Proof.
  revert s. induction p as [|a p IH]; intros s; simpl.
  - now intros [= ->].
  - destruct s as [|b s]; [discriminate |].
    destruct (Ascii.eqb_spec a b) as [-> | _]; [| discriminate].
    intros H. now rewrite (IH _ H).
Qed.

Lemma strip_prefix_append (p r : string) : strip_prefix p (p ++ r) = Some r.
Proof.
  induction p as [|a p IH]; simpl; [reflexivity |].
  now rewrite Ascii.eqb_refl.
Qed.

Lemma split_first_sound (sep s a b : string) :
  split_first sep s = Some (a, b) -> s = a ++ sep ++ b.
Proof.
  revert a. induction s as [|c s IH]; intros a; simpl.
  - destruct (strip_prefix sep EmptyString) eqn:E; [| discriminate].
    intros [= <- <-]. simpl. now apply strip_prefix_sound.
  - destruct (strip_prefix sep (String c s)) eqn:E.
    + intros [= <- <-]. simpl. now apply strip_prefix_sound.
    + destruct (split_first sep s) as [[a' b'] |]; [| discriminate].
      intros [= <- <-]. simpl. now rewrite (IH a' eq_refl).
Qed.

Lemma split_first_cons (sep s : string) (c : ascii) :
  split_first sep s <> None -> split_first sep (String c s) <> None.
Proof.
  intros H. cbn [split_first].
  destruct (strip_prefix sep (String c s)); [discriminate |].
  destruct (split_first sep s) as [[a b] |]; [discriminate | contradiction].
Qed.

Lemma split_first_append (sep a b : string) :
  split_first sep (a ++ sep ++ b) <> None.
Proof.
  induction a as [|c a IH]; simpl append.
  - destruct (sep ++ b) eqn:E; cbn [split_first]; rewrite <- E;
      rewrite strip_prefix_append; discriminate.
  - now apply split_first_cons.
Qed.

Lemma split_first_tail (sep s : string) (c : ascii) :
  split_first sep (String c s) = None -> split_first sep s = None.
Proof.
  cbn [split_first].
  destruct (strip_prefix sep (String c s)); [discriminate |].
  now destruct (split_first sep s) as [[a b] |].
Qed.

Lemma split_first_suffix (sep p s r : string) :
  strip_prefix p s = Some r -> split_first sep s = None ->
  split_first sep r = None.
Proof.
  revert s. induction p as [|a p IH]; intros s; simpl.
  - now intros [= ->].
  - destruct s as [|b s]; [discriminate |].
    destruct (a =? b)%char; [| discriminate].
    intros H Hs. apply (IH s H). now apply split_first_tail in Hs.
Qed.

Lemma star_lazy_split {A : Type} (sep : string) (F : nat -> string -> A) :
  forall (r1 : string) (p0 : nat),
    star_lazy (fun _ => true) p0 r1
              (fun p r' => match strip_prefix sep r' with
                           | Some r2 => Some (F p r2)
                           | None => None
                           end) =
    match split_first sep r1 with
    | Some (x, r2) => Some (F (p0 + String.length x) r2)
    | None => None
    end.
Proof.
  induction r1 as [|c r1 IH]; intros p0; cbn [star_lazy split_first].
  - destruct (strip_prefix sep EmptyString); [| reflexivity].
    simpl. now rewrite Nat.add_0_r.
  - destruct (strip_prefix sep (String c r1)).
    + simpl. now rewrite Nat.add_0_r.
    + rewrite IH. destruct (split_first sep r1) as [[x r2] |]; [| reflexivity].
      simpl. now rewrite Nat.add_succ_r.
Qed.

Lemma match_at_post_id (pos : nat) (rest : string) :
  match_at post_id_re pos rest false =
  match strip_prefix "post/" rest with
  | Some r1 =>
      match split_first ".html" r1 with
      | Some (x, _) =>
          Some (mkMatch pos (pos + 5 + String.length x + 5)
                  (substring 0 (pos + 5 + String.length x + 5 - pos) rest)
                  [(1, substring 0 (pos + 5 + String.length x - (pos + 5)) r1)])
      | None => None
      end
  | None => None
  end.
Proof.
  unfold match_at, post_id_re. cbn [run].
  destruct (strip_prefix "post/" rest) as [r1 |]; [| reflexivity].
  exact (star_lazy_split ".html"
           (fun p _ =>
              mkMatch pos (p + 5) (substring 0 (p + 5 - pos) rest)
                      [(1, substring 0 (p - (pos + 5)) r1)])
           r1 (pos + 5)).
Qed.

Lemma between_cons (c : ascii) (s : string) :
  strip_prefix "post/" (String c s) = None ->
  between (String c s) = between s.
Proof.
  intros H. unfold between. cbn [split_first]. rewrite H.
  now destruct (split_first "post/" s) as [[a b] |].
Qed.

Lemma between_none (s : string) :
  split_first ".html" s = None -> between s = None.
Proof.
  induction s as [|c s IH]; intros H.
  - reflexivity.
  - destruct (strip_prefix "post/" (String c s)) as [r1 |] eqn:E.
    + unfold between. cbn [split_first]. rewrite E.
      now rewrite (split_first_suffix _ _ _ _ E H).
    + rewrite (between_cons _ _ E). apply IH. now apply split_first_tail in H.
Qed.

Lemma search_none (s : string) :
  split_first ".html" s = None ->
  forall pos, search_from post_id_re pos s = None.
Proof.
  induction s as [|c s IH]; intros H pos.
  - reflexivity.
  - cbn [search_from]. rewrite match_at_post_id.
    destruct (strip_prefix "post/" (String c s)) as [r1 |] eqn:E.
    + rewrite (split_first_suffix _ _ _ _ E H).
      apply IH. now apply split_first_tail in H.
    + apply IH. now apply split_first_tail in H.
Qed.

(** The search of line 64 finds the text between the first [post/] and the
    first [.html] after it. *)
Lemma search_post_id (s : string) :
  forall pos,
    match search_from post_id_re pos s with
    | Some m => group m 1
    | None => None
    end = between s.
Proof.
  induction s as [|c s IH]; intros pos.
  - reflexivity.
  - cbn [search_from]. rewrite match_at_post_id.
    destruct (strip_prefix "post/" (String c s)) as [r1 |] eqn:E.
    + unfold between. cbn [split_first]. rewrite E.
      destruct (split_first ".html" r1) as [[x r2] |] eqn:Ex.
      * cbn [group m_groups lookup Nat.eqb].
        replace (pos + 5 + String.length x - (pos + 5)) with (String.length x)
          by lia.
        rewrite (split_first_sound _ _ _ _ Ex). now rewrite substring_prefix.
      * apply strip_prefix_sound in E. simpl in E. injection E as -> ->.
        rewrite search_none; [reflexivity |].
        simpl. now rewrite Ex.
    + rewrite (between_cons _ _ E). apply IH.
Qed.

Lemma search_post_id_none (s : string) :
  forall pos, search_from post_id_re pos s = None <-> between s = None.
Proof.
  induction s as [|c s IH]; intros pos.
  - split; reflexivity.
  - cbn [search_from]. rewrite match_at_post_id.
    destruct (strip_prefix "post/" (String c s)) as [r1 |] eqn:E.
    + unfold between. cbn [split_first]. rewrite E.
      destruct (split_first ".html" r1) as [[x r2] |] eqn:Ex.
      * split; discriminate.
      * split; [reflexivity | intros _].
        apply strip_prefix_sound in E. simpl in E. injection E as -> ->.
        apply search_none. simpl. now rewrite Ex.
    + rewrite (between_cons _ _ E). apply IH.
Qed.

Lemma parse_post_id_unfold (url : string) :
  parse_post_id url =
  match between url with
  | None =>
      Raise (InvalidUrlFormat ["The provided URL %s could not be parsed."; url])
  | Some x =>
      match int x with
      | Some n => Return (VInt n)
      | None => Return (VStr x)
      end
  end.
Proof.
  unfold parse_post_id, re_search.
  pose proof (search_post_id url 0) as H.
  pose proof (search_post_id_none url 0) as Hn.
  destruct (search_from post_id_re 0 url) as [m |].
  - rewrite H. destruct (between url) as [x |]; [reflexivity |].
    destruct Hn as [_ Hn]. now specialize (Hn eq_refl).
  - now rewrite <- H.
Qed.

Lemma between_grow (c : ascii) (u : string) :
  between u <> None -> between (String c u) <> None.
Proof.
  intros H.
  destruct (strip_prefix "post/" (String c u)) as [r1 |] eqn:E.
  - assert (Hu : split_first ".html" u <> None).
    { intros Hn. now apply H, between_none. }
    unfold between. cbn [split_first]. rewrite E.
    apply strip_prefix_sound in E. simpl in E. injection E as -> ->.
    simpl in Hu.
    now destruct (split_first ".html" r1) as [[x' b'] |].
  - now rewrite (between_cons _ _ E).
Qed.

Lemma between_segment (url : string) :
  between url <> None <-> has_segment url.
Proof.
  split.
  - unfold between, has_segment.
    destruct (split_first "post/" url) as [[a r] |] eqn:Ea; [| contradiction].
    destruct (split_first ".html" r) as [[x b] |] eqn:Ex; [| contradiction].
    intros _. exists a, x, b.
    apply split_first_sound in Ea, Ex. now rewrite Ea, Ex.
  - intros (a & x & b & ->).
    induction a as [|c a IH].
    + pose proof (split_first_append ".html" x b) as H.
      change (between (EmptyString ++ "post/" ++ x ++ ".html" ++ b))
        with (match split_first ".html" (x ++ ".html" ++ b) with
              | Some (x0, _) => Some x0
              | None => None
              end).
      now destruct (split_first ".html" (x ++ ".html" ++ b)) as [[x' b'] |].
    + apply (between_grow c _ IH).
Qed.

(** ** The shard pattern *)

(** A template text without backslash parses to itself. *)
Lemma parse_template_plain (ng : nat) (s : string) :
  forall fuel,
    String.length s < fuel -> plain s = true ->
    parse_template fuel ng s = Return (lits s).
Proof.
  induction s as [|c s IH]; intros fuel Hf Hp.
  - destruct fuel; [simpl in Hf; lia | reflexivity].
  - destruct fuel as [|fuel]; [simpl in Hf; lia |].
    simpl in Hf, Hp. apply andb_true_iff in Hp as [Hc Hs].
    unfold plain_char in Hc. apply andb_true_iff in Hc as [_ Hb].
    cbn [parse_template]. rewrite Hb.
    rewrite (IH fuel) by (assumption || lia). reflexivity.
Qed.

Lemma expand_lits (s : string) (m : rmatch) : expand (lits s) m = s.
Proof.
  induction s as [|c s IH]; simpl; [reflexivity | now rewrite IH].
Qed.

Lemma parse_template_group2 (fuel : nat) (t : string) :
  parse_template (S fuel) 2
    (String backslash (String "g" (String "<" (String "2" (String ">" t))))) =
  cons_part (Return (TGroup 2)) (parse_template fuel 2 t).
Proof. reflexivity. Qed.

Lemma parse_template_group1 (fuel : nat) (t : string) :
  parse_template (S fuel) 2
    (String backslash (String "g" (String "<" (String "1" (String ">" t))))) =
  cons_part (Return (TGroup 1)) (parse_template fuel 2 t).
Proof. reflexivity. Qed.

Lemma parse_template_slash (fuel : nat) (t : string) :
  parse_template (S fuel) 2 (String "/" t) =
  cons_part (Return (TLit "/")) (parse_template fuel 2 t).
Proof. reflexivity. Qed.

(** The template of line 159 for an identifier without backslash. *)
Lemma shard_template (id : string) :
  plain id = true ->
  parse_template (S (String.length ("\g<2>/\g<1>/" ++ id))) 2
                 ("\g<2>/\g<1>/" ++ id) =
  Return (TGroup 2 :: TLit "/" :: TGroup 1 :: TLit "/" :: lits id).
Proof.
  intros Hp. cbn [append String.length].
  rewrite parse_template_group2, parse_template_slash.
  rewrite parse_template_group1, parse_template_slash.
  rewrite parse_template_plain by (assumption || lia). reflexivity.
Qed.

(** The shard pattern is anchored at the start: once its match has covered
    the text, the loop produces nothing more. *)
Lemma sub_loop_shard_rest (f : rmatch -> outcome string) (s : string) :
  forall pos,
    0 < pos -> sub_loop shard_re f pos s (String.length s) = Return EmptyString.
Proof.
  induction s as [|c s IH]; intros pos Hpos.
  - destruct pos as [|pos]; [lia | reflexivity].
  - cbn [String.length sub_loop]. apply IH. lia.
Qed.

(** A greedy star over a text it can swallow whole gives back characters
    until the rest of the pattern fits: here, the last three. *)
Lemma star_greedy_last_three {A : Type} (f : ascii -> bool)
      (k : nat -> string -> option A) (x y z : ascii) (res : A) :
  (forall p s, String.length s < 3 -> k p s = None) ->
  forall a pos,
    sforall f (a ++ String x (String y (String z EmptyString))) = true ->
    k (pos + String.length a) (String x (String y (String z EmptyString)))
    = Some res ->
    star_greedy f pos (a ++ String x (String y (String z EmptyString))) k
    = Some res.
Proof.
  intros Hshort. induction a as [|c a IH]; intros pos Hf Hk.
  - simpl in Hf, Hk |- *. rewrite Nat.add_0_r in Hk.
    apply andb_true_iff in Hf as [-> Hf].
    apply andb_true_iff in Hf as [-> Hf].
    apply andb_true_iff in Hf as [-> _].
    rewrite !Hshort by (simpl; lia). exact Hk.
  - simpl in Hf |- *. apply andb_true_iff in Hf as [-> Hf].
    rewrite (IH (S pos) Hf); [reflexivity |].
    simpl in Hk. now rewrite Nat.add_succ_r in Hk.
Qed.

Lemma plain_not_newline (c : ascii) :
  plain_char c = true -> cmatch CAny c = true.
Proof.
  unfold plain_char, cmatch. intros H.
  now apply andb_true_iff in H as [-> _].
Qed.

Lemma substring_whole (s : string) : substring 0 (String.length s) s = s.
Proof.
  rewrite <- (append_nil_r s) at 2. apply substring_prefix.
Qed.

(** The one match of the shard pattern in a text without newline. *)
Lemma match_at_shard (a : string) (x y z : ascii) :
  let id := a ++ String x (String y (String z EmptyString)) in
  plain id = true ->
  match_at shard_re 0 id false =
  Some (mkMatch 0 (String.length id) id
                [(2, single z); (1, String x (single y))]).
Proof.
  intros id Hp. unfold match_at, shard_re. cbn [run Nat.eqb].
  assert (Hany : sforall (cmatch CAny) id = true).
  { apply (sforall_impl plain_char); [apply plain_not_newline | exact Hp]. }
  subst id. erewrite star_greedy_last_three; [reflexivity | | exact Hany |].
  - intros p s Hs.
    destruct s as [|c1 [|c2 [|c3 s]]]; simpl in Hs; try lia; simpl;
      repeat (match goal with
              | |- context [if ?b then _ else _] => destruct b
              end); reflexivity.
  - rewrite sforall_append in Hany. apply andb_true_iff in Hany as [_ Hxyz].
    cbn [sforall] in Hxyz.
    apply andb_true_iff in Hxyz as [Hx Hxyz].
    apply andb_true_iff in Hxyz as [Hy Hxyz].
    apply andb_true_iff in Hxyz as [Hz _].
    cbn [run at_eol]. rewrite Hx, Hy, Hz. cbn [andb].
    set (id := a ++ String x (String y (String z EmptyString))).
    assert (Hlen : String.length id = S (S (S (0 + String.length a)))).
    { unfold id. rewrite length_append. simpl. lia. }
    rewrite <- Hlen.
    replace (S (S (0 + String.length a)) - (0 + String.length a)) with 2 by lia.
    replace (String.length id - S (S (0 + String.length a))) with 1 by lia.
    rewrite Nat.sub_0_r, substring_whole. reflexivity.
Qed.

Lemma shard_path_last_three (a : string) (x y z : ascii) :
  shard_path (a ++ String x (String y (String z EmptyString))) =
  single z ++ "/" ++ String x (single y) ++ "/"
    ++ (a ++ String x (String y (String z EmptyString))).
Proof.
  unfold shard_path. rewrite length_append. cbn [String.length].
  replace (String.length a + 3 <? 3)%nat with false
    by (symmetry; apply Nat.ltb_ge; lia).
  replace (String.length a + 3 - 1) with (String.length a + 2) by lia.
  replace (String.length a + 3 - 3) with (String.length a + 0) by lia.
  now rewrite !substring_skip.
Qed.

(** Lines 156 to 160 of the source on an identifier without newline and
    without backslash. *)
Lemma calculate_post_filepath_plain (id : string) :
  plain id = true -> _calculate_post_filepath id = Return (shard_path id).
Proof.
  intros Hp. unfold _calculate_post_filepath.
  destruct (String.length id <? 3)%nat eqn:Hlen.
  - unfold shard_path. now rewrite Hlen.
  - apply Nat.ltb_ge in Hlen.
    destruct (last_three id Hlen) as (a & x & y & z & E).
    pose proof (match_at_shard a x y z) as Hm. cbv zeta in Hm.
    rewrite <- E in Hm. specialize (Hm Hp).
    assert (Hs : shard_path id =
                 single z ++ "/" ++ String x (single y) ++ "/" ++ id)
      by (rewrite E; apply shard_path_last_three).
    rewrite Hs.
    unfold re_sub.
    change (mem backslash ("\g<2>/\g<1>/" ++ id)) with true. cbv iota.
    change (ngroups shard_re) with 2.
    rewrite (shard_template id Hp). cbn [bind].
    destruct id as [|c0 id']; [simpl in Hlen; lia |].
    cbn [sub_loop]. rewrite Hm. cbn [m_end String.length Nat.eqb bind].
    replace (S (String.length id') - 0 - 1) with (String.length id') by lia.
    rewrite sub_loop_shard_rest by lia.
    cbn [bind expand group m_groups lookup Nat.eqb].
    now rewrite expand_lits, !append_assoc, append_nil_r.
Qed.

(** ** Decimal texts *)

Lemma string_of_uint_plain (d : Decimal.uint) :
  plain (DecimalString.NilEmpty.string_of_uint d) = true.
Proof. induction d; simpl; auto. Qed.

Lemma decimal_plain (n : Z) : plain (decimal n) = true.
Proof.
  unfold decimal, DecimalString.NilZero.string_of_int,
    DecimalString.NilZero.string_of_uint.
  destruct (Z.to_int n) as [d | d].
  - destruct d; solve [reflexivity | apply string_of_uint_plain].
  - change (plain_char "-" && plain
              match d with
              | Decimal.Nil => "0"
              | _ => DecimalString.NilEmpty.string_of_uint d
              end = true).
    destruct d; solve [reflexivity | apply string_of_uint_plain].
Qed.

Lemma decimal_pos (p : positive) :
  decimal (Z.pos p) = DecimalString.NilEmpty.string_of_uint (Pos.to_uint p).
Proof.
  pose proof (Unsigned.to_uint_nonnil p) as Hnn.
  unfold decimal, DecimalString.NilZero.string_of_int,
    DecimalString.NilZero.string_of_uint. cbn [Z.to_int].
  destruct (Pos.to_uint p); [congruence | ..]; reflexivity.
Qed.

Lemma decimal_neg (p : positive) :
  decimal (Z.neg p) = String "-" (decimal (Z.pos p)).
Proof. reflexivity. Qed.

(** Two integers with the same decimal text are equal. *)
Lemma decimal_inj (n m : Z) : decimal n = decimal m -> n = m.
Proof.
  assert (Hisi : forall z,
             DecimalString.NilZero.int_of_string (decimal z)
             = Some (Z.to_int z)).
  { intros z. unfold decimal. apply DecimalString.NilZero.isi;
      destruct z; cbn [Z.to_int]; try discriminate;
      intros [= E]; now apply (Unsigned.to_uint_nonnil p). }
  intros H. apply to_int_inj.
  apply (f_equal DecimalString.NilZero.int_of_string) in H.
  rewrite !Hisi in H. now injection H.
Qed.

Lemma too_long_false (k : nat) : too_long k = false <-> k <= max_str_digits.
Proof. unfold too_long. apply Nat.ltb_ge. Qed.

Lemma too_long_true (k : nat) : too_long k = true <-> max_str_digits < k.
Proof. unfold too_long. apply Nat.ltb_lt. Qed.

(** A text of [k] digits denotes less than [10 ^ k]. *)
Lemma of_lu_revapp_bound (d : Decimal.uint) :
  forall d',
    (Z.of_N (Unsigned.of_lu (Decimal.revapp d d'))
     < (Z.of_N (Unsigned.of_lu d') + 1)
       * 10 ^ Z.of_nat (String.length (DecimalString.NilEmpty.string_of_uint d)))%Z.
Proof.
  induction d; intros d';
    cbn [Decimal.revapp DecimalString.NilEmpty.string_of_uint String.length];
    [ rewrite Z.pow_0_r; lia | .. ];
    rewrite Nat2Z.inj_succ, Z.pow_succ_r by lia;
    match goal with
    | IH : forall _, _ |- (Z.of_N (_ (Decimal.revapp _ ?e)) < _)%Z =>
        specialize (IH e); cbn [Unsigned.of_lu] in IH
    end;
    match goal with
    | |- context [(10 ^ ?k)%Z] =>
        assert (0 < 10 ^ k)%Z by (apply Z.pow_pos_nonneg; lia)
    end;
    nia.
Qed.

Lemma decimal_bound (n : Z) :
  (0 <= n)%Z -> (n < 10 ^ Z.of_nat (digit_count n))%Z.
Proof.
  intros Hn. unfold digit_count. rewrite Z.abs_eq by exact Hn.
  destruct n as [|p|p]; [reflexivity | | lia].
  rewrite decimal_pos.
  pose proof (of_lu_revapp_bound (Pos.to_uint p) Decimal.Nil) as H.
  fold (Decimal.rev (Pos.to_uint p)) in H.
  rewrite <- Unsigned.of_uint_alt, Unsigned.of_to in H.
  cbn [Unsigned.of_lu Z.of_N] in H. lia.
Qed.

(** [str] refuses every integer of magnitude [10 ^ 4300] or more. *)
Lemma too_long_big (n : Z) :
  (10 ^ 4300 <= Z.abs n)%Z -> too_long (digit_count n) = true.
Proof.
  intros Hn. destruct (too_long (digit_count n)) eqn:E; [reflexivity |].
  exfalso. apply too_long_false, Nat2Z.inj_le in E.
  change (Z.of_nat max_str_digits) with 4300%Z in E.
  pose proof (decimal_bound (Z.abs n) (Z.abs_nonneg n)) as Hb.
  assert (Hd : digit_count (Z.abs n) = digit_count n)
    by (destruct n; reflexivity).
  rewrite Hd in Hb.
  assert (Hp : (10 ^ Z.of_nat (digit_count n) <= 10 ^ 4300)%Z)
    by (apply Z.pow_le_mono_r; [reflexivity | exact E]).
  exact (Z.lt_irrefl _ (Z.le_lt_trans _ _ _ Hn (Z.lt_le_trans _ _ _ Hb Hp))).
Qed.

(** ** [int] reads back the decimal text *)

Lemma digit_not_sign (c : ascii) :
  is_digit c = true ->
  int_space c = false /\ (c =? "-")%char = false /\ (c =? "+")%char = false
  /\ (c =? ".")%char = false.
Proof. by_cases_on_char c. Qed.

Lemma scan_digits_uint (d : Decimal.uint) :
  forall (d' : Decimal.uint) (st : scan_state) (cnt : nat),
    d <> Decimal.Nil \/ st = AfterDigit ->
    scan_digits st cnt (Z.of_N (Unsigned.of_lu d'))
                (DecimalString.NilEmpty.string_of_uint d)
    = if too_long (cnt + String.length
                           (DecimalString.NilEmpty.string_of_uint d))
      then None
      else Some (Z.of_N (Unsigned.of_lu (Decimal.revapp d d'))).
Proof.
  induction d; intros d' st cnt Hst;
    [ destruct Hst as [H | ->]; [congruence |];
      cbn [DecimalString.NilEmpty.string_of_uint scan_digits sforall
             String.length Decimal.revapp];
      now rewrite Nat.add_0_r
    | .. ];
    cbn [DecimalString.NilEmpty.string_of_uint scan_digits Decimal.revapp
           String.length];
    match goal with
    | |- context [is_digit ?c] => change (is_digit c) with true
    end; cbv iota;
    rewrite Nat.add_succ_r;
    match goal with
    | IH : forall _ _ _, _ -> _
      |- scan_digits _ _ ?v _
         = if _ then _ else Some (Z.of_N (_ (Decimal.revapp _ ?e))) =>
        replace v with (Z.of_N (Unsigned.of_lu e))
          by (cbn [Unsigned.of_lu]; unfold digit_value;
              rewrite ?N2Z.inj_add, ?N2Z.inj_mul;
              vm_compute (Z.of_N (ord _)); lia);
        rewrite (IH e AfterDigit) by (right; reflexivity)
    end;
    reflexivity.
Qed.

Lemma string_of_uint_head (d : Decimal.uint) :
  d <> Decimal.Nil ->
  exists c s, DecimalString.NilEmpty.string_of_uint d = String c s
              /\ is_digit c = true.
Proof.
  destruct d; [congruence | ..]; intros _; simpl; eexists; eexists;
    (split; [reflexivity | reflexivity]).
Qed.

Lemma int_decimal_pos (p : positive) :
  int (decimal (Z.pos p)) =
  if too_long (digit_count (Z.pos p)) then None else Some (Z.pos p).
Proof.
  unfold digit_count. cbn [Z.abs]. rewrite decimal_pos.
  pose proof (Unsigned.to_uint_nonnil p) as Hnn.
  destruct (string_of_uint_head _ Hnn) as (c & s & E & Hc).
  destruct (digit_not_sign c Hc) as (Hs & Hm & Hp & _).
  unfold int. rewrite E at 1. cbn [skip_int_space]. rewrite Hs, Hm, Hp, <- E.
  change 0%Z with (Z.of_N (Unsigned.of_lu Decimal.Nil)).
  rewrite scan_digits_uint by (left; exact Hnn).
  fold (Decimal.rev (Pos.to_uint p)).
  now rewrite <- Unsigned.of_uint_alt, Unsigned.of_to.
Qed.

(** [int] gives back the integer of a decimal text, unless the text has
    too many digits. *)
Lemma int_decimal (n : Z) :
  int (decimal n) = if too_long (digit_count n) then None else Some n.
Proof.
  destruct n as [|p|p]; [reflexivity | apply int_decimal_pos |].
  pose proof (int_decimal_pos p) as Hi.
  change (digit_count (Z.neg p)) with (digit_count (Z.pos p)).
  rewrite decimal_neg.
  rewrite decimal_pos in Hi |- *.
  pose proof (Unsigned.to_uint_nonnil p) as Hnn.
  destruct (string_of_uint_head _ Hnn) as (c & s & Es & Hc).
  destruct (digit_not_sign c Hc) as (Hs & Hm & Hp & _).
  unfold int in Hi |- *. cbn [skip_int_space].
  change (int_space "-") with false. cbv iota.
  change ("-" =? "-")%char with true. cbv iota.
  rewrite Es in Hi |- *. cbn [skip_int_space] in Hi.
  rewrite Hs, Hm, Hp in Hi. rewrite Hi.
  now destruct (too_long (digit_count (Z.pos p))).
Qed.

Lemma split_first_here (x b : string) :
  sforall (fun c => negb (c =? ".")%char) x = true ->
  split_first ".html" (x ++ ".html" ++ b) = Some (x, b).
Proof.
  induction x as [|c x IH]; intros H.
  - reflexivity.
  - simpl in H. apply andb_true_iff in H as [Hc Hx].
    change (String c x ++ ".html" ++ b) with (String c (x ++ ".html" ++ b)).
    cbn [split_first strip_prefix].
    rewrite Ascii.eqb_sym. apply negb_true_iff in Hc. rewrite Hc.
    now rewrite (IH Hx).
Qed.

Lemma decimal_no_dot (n : Z) :
  sforall (fun c => negb (c =? ".")%char) (decimal n) = true.
Proof.
  assert (H : forall d, sforall (fun c => negb (c =? ".")%char)
                                (DecimalString.NilEmpty.string_of_uint d) = true)
    by (induction d; simpl; auto).
  unfold decimal, DecimalString.NilZero.string_of_int,
    DecimalString.NilZero.string_of_uint.
  destruct (Z.to_int n) as [d | d].
  - destruct d; solve [reflexivity | apply H].
  - cbn [sforall]. apply andb_true_iff. split; [reflexivity |].
    destruct d; solve [reflexivity | apply H].
Qed.

(** The errors of the template parser. *)
Lemma cons_part_raise (p : outcome tpart) (ps : outcome (list tpart)) (e : exn) :
  cons_part p ps = Raise e -> p = Raise e \/ ps = Raise e.
Proof.
  unfold cons_part. destruct p as [a | e1]; cbn [bind].
  - destruct ps as [l | e2]; cbn [bind]; [discriminate | intros H; now right].
  - intros [= ->]; now left.
Qed.

Lemma group_ref_raise (ng : nat) (n : Z) (e : exn) :
  group_ref ng n = Raise e -> e = re_error.
Proof.
  unfold group_ref. destruct ((0 <=? n) && (n <=? Z.of_nat ng))%Z;
    [discriminate | now intros [= <-]].
Qed.

Lemma parse_template_error (ng : nat) :
  forall fuel t e,
    parse_template fuel ng t = Raise e -> e = re_error \/ e = IndexError.
Proof.
  induction fuel as [|fuel IH]; intros t e H.
  - injection H as <-. now left.
  - cbn [parse_template] in H. cbv zeta in H.
    repeat first
      [ discriminate H
      | injection H as <-; solve [now left | now right]
      | apply group_ref_raise in H; subst e; now left
      | apply IH in H; exact H
      | apply cons_part_raise in H; destruct H as [H | H]
      | match type of H with
        | context [match ?x with _ => _ end] => destruct x
        end ].
Qed.

(** ** Identifiers outside the plain ones

    The identifier is part of the replacement template, and [.] stops at a
    newline: with a backslash or a newline in it the shard rule no longer
    applies. *)

Example calculate_post_filepath_bad_escape :
  _calculate_post_filepath "ab\q" = Raise re_error.
Proof. reflexivity. Qed.

Example calculate_post_filepath_unknown_group :
  _calculate_post_filepath "a\g<x>b" = Raise IndexError.
Proof. reflexivity. Qed.

Example calculate_post_filepath_group_escape :
  _calculate_post_filepath "a\1b" = Return "b/\1/a\1b".
Proof. reflexivity. Qed.

Example calculate_post_filepath_final_newline :
  _calculate_post_filepath ("abc" ++ single newline)
  = Return ("c/ab/abc" ++ single newline ++ single newline).
Proof. reflexivity. Qed.

Example calculate_post_filepath_inner_newline :
  _calculate_post_filepath ("a" ++ single newline ++ "bcd")
  = Return ("a" ++ single newline ++ "bcd").
Proof. reflexivity. Qed.

(** * The claims *)

(** ** Path sharding *)

(** C1, as stated, fails: the pattern of line 159 captures the two
    characters before the last one as one group, so the middle directory of
    [abcde] is [cd], not [d]. *)
Lemma calculate_post_filepath_abcde :
  _calculate_post_filepath "abcde" = Return "e/cd/abcde"
  /\ _calculate_post_filepath "abcde" <> Return "e/d/abcde".
Proof. split; [reflexivity | discriminate]. Qed.

(** C1 (amended).  For every identifier without newline and without
    backslash: an identifier shorter than three characters is returned
    unchanged (this part holds for every identifier); a longer one gives
    [<last character>/<the two characters before it>/<identifier>].  The
    shard path of [ab] is [ab], the shard path of [abcde] is [e/cd/abcde]. *)
Theorem calculate_post_filepath_shard :
  (forall id, String.length id < 3 -> _calculate_post_filepath id = Return id)
  /\ (forall a x y z,
         let id := a ++ String x (String y (String z EmptyString)) in
         plain id = true ->
         _calculate_post_filepath id =
         Return (single z ++ "/" ++ String x (single y) ++ "/" ++ id))
  /\ (forall id, plain id = true ->
                 _calculate_post_filepath id = Return (shard_path id))
  /\ _calculate_post_filepath "ab" = Return "ab"
  /\ _calculate_post_filepath "abcde" = Return "e/cd/abcde".
Proof.
  repeat split.
  - intros id H. unfold _calculate_post_filepath.
    apply Nat.ltb_lt in H. now rewrite H.
  - intros a x y z id H.
    rewrite (calculate_post_filepath_plain id H).
    unfold id. now rewrite shard_path_last_three.
  - apply calculate_post_filepath_plain.
Qed.

Lemma calculate_post_filepath_shard_witness :
  plain "nozomi" = true
  /\ _calculate_post_filepath "nozomi" = Return "i/om/nozomi".
Proof.
  split; [reflexivity |].
  exact (proj1 (proj2 (proj2 calculate_post_filepath_shard)) "nozomi" eq_refl).
Defined.

(** C2, as stated, fails on its example: post 123 lives under [3/12/]. *)
Lemma create_post_filepath_123 :
  create_post_filepath 123 = Return "https://j.nozomi.la/post/3/12/123.json"
  /\ create_post_filepath 123 <> Return "https://j.nozomi.la/post/3/2/123.json".
Proof. split; [reflexivity | discriminate]. Qed.

(** C2 (amended).  For every integer post identifier of at most 4300
    decimal digits, [create_post_filepath] turns it into its decimal text,
    computes the shard path of that text and returns
    [https://j.nozomi.la/post/{shard_path}.json]; for an identifier of more
    digits, so for every one of magnitude [10 ^ 4300] or more, the
    conversion to text raises [ValueError].  For 123 the result is
    [https://j.nozomi.la/post/3/12/123.json]. *)
Theorem create_post_filepath_url :
  (forall post_id : Z,
      digit_count post_id <= max_str_digits ->
      create_post_filepath post_id =
      Return ("https://j.nozomi.la/post/" ++ shard_path (decimal post_id)
                ++ ".json"))
  /\ (forall post_id : Z,
         max_str_digits < digit_count post_id
         \/ (10 ^ 4300 <= Z.abs post_id)%Z ->
         create_post_filepath post_id = Raise ValueError)
  /\ create_post_filepath 123 = Return "https://j.nozomi.la/post/3/12/123.json".
Proof.
  split; [| split; [| reflexivity]].
  - intros post_id H. apply too_long_false in H.
    unfold create_post_filepath, str_of_int. rewrite H. cbn [bind].
    now rewrite (calculate_post_filepath_plain _ (decimal_plain post_id)).
  - intros post_id H.
    assert (Ht : too_long (digit_count post_id) = true)
      by (destruct H as [H | H];
          [now apply too_long_true | now apply too_long_big]).
    unfold create_post_filepath, str_of_int. now rewrite Ht.
Qed.

Lemma create_post_filepath_url_witness :
  digit_count 2024 <= max_str_digits
  /\ create_post_filepath 2024 = Return "https://j.nozomi.la/post/4/02/2024.json".
Proof.
  assert (H : digit_count 2024 <= max_str_digits)
    by (apply too_long_false; reflexivity).
  split; [exact H |].
  exact (proj1 create_post_filepath_url 2024%Z H).
Defined.

(** C3, as stated, fails on its example: the media file of [abcde] lives
    under [e/cd/]. *)
Lemma create_media_filepath_abcde :
  create_media_filepath (mkMedia "abcde" false "gif")
  = Return "https://g.nozomi.la/e/cd/abcde.gif"
  /\ create_media_filepath (mkMedia "abcde" false "gif")
     <> Return "https://g.nozomi.la/e/d/abcde.gif".
Proof. split; [reflexivity | discriminate]. Qed.

(** C3 (amended).  For every media descriptor, the subdomain is [v] and
    the extension the [type] field when [is_video] holds, [g] and [gif]
    when it does not and the type is [gif], [w] and [webp] otherwise, and
    [create_media_filepath] returns
    [https://{subdomain}.nozomi.la/{shard_path}.{extension}] with the shard
    path computed from [dataid]; for [{dataid: abcde, is_video: false,
    type: gif}] this is [https://g.nozomi.la/e/cd/abcde.gif]. *)
Theorem create_media_filepath_url :
  (forall media path,
      _calculate_post_filepath (dataid media) = Return path ->
      create_media_filepath media =
      Return ("https://" ++ subdomain media ++ ".nozomi.la/" ++ path ++ "."
                ++ extension media))
  /\ (forall media,
         plain (dataid media) = true ->
         create_media_filepath media =
         Return ("https://" ++ subdomain media ++ ".nozomi.la/"
                   ++ shard_path (dataid media) ++ "." ++ extension media))
  /\ (forall id ty, subdomain (mkMedia id true ty) = "v"
                    /\ extension (mkMedia id true ty) = ty)
  /\ (forall id, subdomain (mkMedia id false "gif") = "g"
                 /\ extension (mkMedia id false "gif") = "gif")
  /\ (forall id ty, ty <> "gif" ->
                    subdomain (mkMedia id false ty) = "w"
                    /\ extension (mkMedia id false ty) = "webp")
  /\ create_media_filepath (mkMedia "abcde" false "gif")
     = Return "https://g.nozomi.la/e/cd/abcde.gif".
Proof.
  assert (Hgen : forall media path,
             _calculate_post_filepath (dataid media) = Return path ->
             create_media_filepath media =
             Return ("https://" ++ subdomain media ++ ".nozomi.la/" ++ path ++ "."
                       ++ extension media)).
  { intros media path H. unfold create_media_filepath, subdomain, extension.
    rewrite H.
    destruct (is_video media); [reflexivity |].
    destruct (type media =? "gif")%string; reflexivity. }
  split; [exact Hgen |].
  split.
  { intros media H. apply Hgen. now apply calculate_post_filepath_plain. }
  split; [now split |].
  split; [now split |].
  split; [| reflexivity].
  intros id ty H. unfold subdomain, extension. cbn [is_video type].
  apply String.eqb_neq in H. now rewrite H.
Qed.

Lemma create_media_filepath_url_witness :
  create_media_filepath (mkMedia "0a1b2c" true "mp4")
  = Return "https://v.nozomi.la/c/b2/0a1b2c.mp4".
Proof.
  exact (proj1 (proj2 create_media_filepath_url)
               (mkMedia "0a1b2c" true "mp4") eq_refl).
Defined.

(** ** Tags *)

(** C4, as stated, fails: the characters [/], [#], [%] are removed after
    the tag is trimmed, so a blank that followed one of them at the start
    (or preceded one at the end) stays. *)
Lemma sanitize_tag_not_trimmed :
  sanitize_tag "/ a" = Return " a" /\ ~ is_sanitized " a".
Proof.
  split; [reflexivity |].
  intros (_ & H & _). discriminate H.
Qed.

(** C4 (amended).  Every text that [sanitize_tag] returns is the lowercased
    and trimmed tag with every [/], [#] and [%] removed; it is in lowercase,
    holds none of these three characters, is not empty and does not start
    with [-].  [sanitize_tag(" Foo/Bar# ")] returns [foobar]. *)
Theorem sanitize_tag_result :
  (forall tag r,
      sanitize_tag tag = Return r ->
      r = normalize tag
      /\ lower r = r
      /\ sforall (fun c => negb (is_invalid_char c)) r = true
      /\ r <> EmptyString
      /\ starts_with "-" r = false)
  /\ sanitize_tag " Foo/Bar# " = Return "foobar".
Proof.
  split; [| reflexivity].
  intros tag r. rewrite sanitize_tag_unfold.
  destruct (is_empty (normalize tag)) eqn:He; [discriminate |].
  destruct (starts_with "-" (normalize tag)) eqn:Hd; [discriminate |].
  intros [= <-]. repeat split.
  - apply normalize_lower.
  - apply sforall_sfilter.
  - now apply is_empty_false.
  - exact Hd.
Qed.

Lemma sanitize_tag_result_witness :
  sanitize_tag " A B " = Return "a b"
  /\ "a b" = normalize " A B " /\ lower "a b" = "a b".
Proof.
  split; [reflexivity |].
  destruct (proj1 sanitize_tag_result " A B " "a b" eq_refl)
    as (Hn & Hl & _).
  exact (conj Hn Hl).
Defined.

(** C7.  [sanitize_tag] raises [InvalidTagFormat] exactly when the tag,
    lowercased, trimmed and with every [/], [#], [%] removed, is empty or
    begins with [-], and raises nothing else; it does so for [-abc] and for
    the empty tag. *)
Theorem sanitize_tag_raises :
  (forall tag,
      (exists msg, sanitize_tag tag = Raise (InvalidTagFormat msg))
      <-> (normalize tag = EmptyString \/ starts_with "-" (normalize tag) = true))
  /\ (forall tag e, sanitize_tag tag = Raise e -> exists msg, e = InvalidTagFormat msg)
  /\ sanitize_tag "-abc"
     = Raise (InvalidTagFormat
                "The tag '-abc' is invalid. Cannot begin with character '-'")
  /\ sanitize_tag EmptyString
     = Raise (InvalidTagFormat "The tag '' is invalid. Cannot be empty.").
Proof.
  split; [| split; [| split; reflexivity]].
  - intros tag. rewrite sanitize_tag_unfold.
    destruct (normalize tag) as [|c s] eqn:E.
    + split; [now left | intros _; eexists; reflexivity].
    + cbn [is_empty]. destruct (starts_with "-" (String c s)).
      * split; [now right | intros _; eexists; reflexivity].
      * split; [intros [msg H]; discriminate H | intros [H | H]; discriminate H].
  - intros tag e. rewrite sanitize_tag_unfold.
    destruct (is_empty (normalize tag)); [intros [= <-]; eexists; reflexivity |].
    destruct (starts_with "-" (normalize tag));
      [intros [= <-]; eexists; reflexivity | discriminate].
Qed.

Lemma sanitize_tag_raises_witness :
  exists msg, sanitize_tag " #-Blue " = Raise (InvalidTagFormat msg).
Proof.
  apply (proj1 sanitize_tag_raises " #-Blue "). right. reflexivity.
Defined.

(** C9.  For every tag of lowercase letters and digits that does not start
    with [-], sanitizing twice gives what sanitizing once gives. *)
Theorem sanitize_tag_idempotent (t : string) :
  sforall is_lower_alnum t = true ->
  starts_with "-" t = false ->
  (r <- sanitize_tag t ;; sanitize_tag r) = sanitize_tag t
  /\ (t <> EmptyString -> sanitize_tag t = Return t).
Proof.
  intros Ha Hd.
  assert (Hn : normalize t = t) by now apply normalize_lower_alnum.
  pose proof (sanitize_tag_unfold t) as Hu. rewrite Hn, Hd in Hu.
  destruct t as [|c s].
  - split; [reflexivity | congruence].
  - cbn [is_empty] in Hu. split; [| intros _; exact Hu].
    rewrite Hu. cbn [bind]. exact Hu.
Qed.

Lemma sanitize_tag_idempotent_witness :
  (r <- sanitize_tag "cat9" ;; sanitize_tag r) = sanitize_tag "cat9".
Proof.
  exact (proj1 (sanitize_tag_idempotent "cat9" eq_refl eq_refl)).
Defined.

(** C6.  For every text, the tag encoder replaces each [;], [/], [?], [:],
    [@], [=], [&] by [%] and the lowercase hexadecimal code point of the
    character, and leaves every other character as it is; [a;b&c] becomes
    [a%3bb%26c]. *)
Theorem encode_tag_spec :
  (forall s, _encode_tag s = Return (encode s))
  /\ (encode_char ";" = "%3b" /\ encode_char "/" = "%2f"
      /\ encode_char "?" = "%3f" /\ encode_char ":" = "%3a"
      /\ encode_char "@" = "%40" /\ encode_char "=" = "%3d"
      /\ encode_char "&" = "%26")
  /\ (forall c, mem c ";/?:@=&" = false -> encode_char c = single c)
  /\ _encode_tag "a;b&c" = Return "a%3bb%26c".
Proof.
  split; [exact encode_tag_encode |].
  split; [repeat split |].
  split; [| reflexivity].
  intros c H. unfold encode_char, is_reserved. now rewrite H.
Qed.

Lemma encode_tag_spec_witness : encode_char "a" = "a".
Proof.
  exact (proj1 (proj2 (proj2 encode_tag_spec)) "a"%char eq_refl).
Defined.

(** C8.  [create_tag_filepath] raises [InvalidTagFormat] with the message
    that the tag must be sanitized first exactly when its argument is empty
    or starts with [-]; otherwise it returns
    [https://j.nozomi.la/nozomi/{encoded_tag}.nozomi] with the encoding of
    the argument.  For [cat] it returns
    [https://j.nozomi.la/nozomi/cat.nozomi]. *)
Theorem create_tag_filepath_spec :
  (forall tag,
      create_tag_filepath tag =
      if is_empty tag || starts_with "-" tag
      then Raise (InvalidTagFormat
                    "Tag must be sanitized before creating a filepath.")
      else Return ("https://j.nozomi.la/nozomi/" ++ encode tag ++ ".nozomi"))
  /\ create_tag_filepath "cat" = Return "https://j.nozomi.la/nozomi/cat.nozomi"
  /\ create_tag_filepath "-cat"
     = Raise (InvalidTagFormat "Tag must be sanitized before creating a filepath.").
Proof.
  split; [| split; reflexivity].
  intros tag. unfold create_tag_filepath, _validate_tag_sanitized.
  destruct (is_empty tag); [reflexivity |].
  destruct (starts_with "-" tag); [reflexivity |].
  now rewrite encode_tag_encode.
Qed.

(** ** Post identifiers *)

(** C5.  [parse_post_id] returns the integer value of the text captured by
    the non-greedy match between [post/] and [.html] (when that text is an
    integer literal: C10 covers the other case), and raises
    [InvalidUrlFormat], and nothing else, exactly when the URL has no such
    segment.  It returns 123456 for [https://nozomi.la/post/123456.html]
    and raises [InvalidUrlFormat] for [https://nozomi.la/invalid]. *)
Theorem parse_post_id_spec :
  (forall url,
      (exists args, parse_post_id url = Raise (InvalidUrlFormat args))
      <-> ~ has_segment url)
  /\ (forall url e,
         parse_post_id url = Raise e ->
         e = InvalidUrlFormat ["The provided URL %s could not be parsed."; url])
  /\ (forall url, has_segment url <-> exists x, between url = Some x)
  /\ (forall url x n,
         between url = Some x -> int x = Some n ->
         parse_post_id url = Return (VInt n))
  /\ parse_post_id "https://nozomi.la/post/123456.html" = Return (VInt 123456)
  /\ parse_post_id "https://nozomi.la/invalid"
     = Raise (InvalidUrlFormat ["The provided URL %s could not be parsed.";
                                "https://nozomi.la/invalid"]).
Proof.
  split; [| split; [| split; [| split; [| split; reflexivity]]]].
  - intros url. rewrite parse_post_id_unfold, <- between_segment.
    destruct (between url) as [x |].
    + split.
      * intros [args H]. destruct (int x); discriminate H.
      * intros H. exfalso. apply H. discriminate.
    + split; [intros _ H; now apply H | intros _; eexists; reflexivity].
  - intros url e. rewrite parse_post_id_unfold.
    destruct (between url) as [x |]; [| now intros [= <-]].
    destruct (int x); discriminate.
  - intros url. rewrite <- between_segment.
    destruct (between url) as [x |].
    + split; [intros _; now exists x | discriminate].
    + split; [contradiction | intros [x H]; discriminate H].
  - intros url x n Hb Hi. now rewrite parse_post_id_unfold, Hb, Hi.
Qed.

Lemma parse_post_id_spec_witness :
  parse_post_id "/post/-7.html?post/8.html" = Return (VInt (-7)).
Proof.
  exact (proj1 (proj2 (proj2 (proj2 parse_post_id_spec)))
               "/post/-7.html?post/8.html" "-7" (-7)%Z eq_refl eq_refl).
Defined.

(** C10.  When the URL has a segment [post/<x>.html] whose captured text is
    not an integer literal, [parse_post_id] raises nothing and returns the
    captured text itself, a string; so it does for
    [https://nozomi.la/post/12a.html]. *)
Theorem parse_post_id_not_integer :
  (forall url x,
      between url = Some x -> int x = None ->
      parse_post_id url = Return (VStr x))
  /\ parse_post_id "https://nozomi.la/post/12a.html" = Return (VStr "12a").
Proof.
  split; [| reflexivity].
  intros url x Hb Hi. now rewrite parse_post_id_unfold, Hb, Hi.
Qed.

Lemma parse_post_id_not_integer_witness :
  parse_post_id "https://nozomi.la/post/.html" = Return (VStr EmptyString).
Proof.
  exact (proj1 parse_post_id_not_integer
               "https://nozomi.la/post/.html" EmptyString eq_refl eq_refl).
Defined.

(** * Further properties of the module *)

(** ** Texts, continued *)

Lemma append_eq_length (a a' b b' : string) :
  a ++ b = a' ++ b' -> String.length a = String.length a' ->
  a = a' /\ b = b'.
Proof.
  revert a'. induction a as [|c a IH]; intros [|c' a']; simpl;
    intros H Hl; try discriminate.
  - now split.
  - injection H as -> H. injection Hl as Hl.
    destruct (IH a' H Hl) as [-> ->]. now split.
Qed.

Lemma append_inv_head (a b c : string) : a ++ b = a ++ c -> b = c.
Proof. intros H. now apply (append_eq_length a a b c). Qed.

Lemma append_inv_tail (a b c : string) : a ++ c = b ++ c -> a = b.
Proof.
  intros H. apply (append_eq_length a b c c H).
  apply (f_equal String.length) in H. rewrite !length_append in H. lia.
Qed.

Lemma sforall_mem (c : ascii) (s : string) :
  sforall (fun d => negb (d =? c)%char) s = negb (mem c s).
Proof.
  induction s as [|d s IH]; simpl; [reflexivity |].
  rewrite IH, negb_orb. now rewrite (Ascii.eqb_sym c d).
Qed.

Lemma smap_append (f : ascii -> ascii) (a b : string) :
  smap f (a ++ b) = smap f a ++ smap f b.
Proof. induction a as [|c a IH]; simpl; [reflexivity | now rewrite IH]. Qed.

Lemma encode_append (a b : string) : encode (a ++ b) = encode a ++ encode b.
Proof.
  induction a as [|c a IH]; simpl; [reflexivity |].
  now rewrite IH, append_assoc.
Qed.

(** ** The functions, unfolded *)

Lemma create_tag_filepath_unfold (tag : string) :
  create_tag_filepath tag =
  if is_empty tag || starts_with "-" tag
  then Raise (InvalidTagFormat "Tag must be sanitized before creating a filepath.")
  else Return ("https://j.nozomi.la/nozomi/" ++ encode tag ++ ".nozomi").
Proof.
  unfold create_tag_filepath, _validate_tag_sanitized.
  destruct (is_empty tag); [reflexivity |].
  destruct (starts_with "-" tag); [reflexivity |].
  now rewrite encode_tag_encode.
Qed.

Lemma create_post_filepath_unfold (post_id : Z) :
  create_post_filepath post_id =
  if too_long (digit_count post_id) then Raise ValueError
  else Return ("https://j.nozomi.la/post/" ++ shard_path (decimal post_id)
                 ++ ".json").
Proof.
  unfold create_post_filepath, str_of_int.
  destruct (too_long (digit_count post_id)); [reflexivity |]. cbn [bind].
  now rewrite (calculate_post_filepath_plain _ (decimal_plain post_id)).
Qed.

Lemma create_media_filepath_plain (media : MediaMetaData) :
  plain (dataid media) = true ->
  create_media_filepath media =
  Return ("https://" ++ subdomain media ++ ".nozomi.la/"
            ++ shard_path (dataid media) ++ "." ++ extension media).
Proof.
  intros H. unfold create_media_filepath, subdomain, extension.
  rewrite (calculate_post_filepath_plain _ H).
  destruct (is_video media); [reflexivity |].
  destruct (type media =? "gif")%string; reflexivity.
Qed.

(** ** Tags through the whole pipeline *)

(** X1.  A tag that [sanitize_tag] returns is always accepted by
    [create_tag_filepath], which returns the address of its index file. *)
Theorem sanitized_tag_has_filepath (tag r : string) :
  sanitize_tag tag = Return r ->
  create_tag_filepath r =
  Return ("https://j.nozomi.la/nozomi/" ++ encode r ++ ".nozomi").
Proof.
  rewrite sanitize_tag_unfold, create_tag_filepath_unfold.
  destruct (is_empty (normalize tag)) eqn:He; [discriminate |].
  destruct (starts_with "-" (normalize tag)) eqn:Hd; [discriminate |].
  intros [= <-]. now rewrite He, Hd.
Qed.

Lemma sanitized_tag_has_filepath_witness :
  create_tag_filepath "a&b" = Return "https://j.nozomi.la/nozomi/a%26b.nozomi".
Proof.
  exact (sanitized_tag_has_filepath " A/&B " "a&b" eq_refl).
Defined.

Lemma encode_char_safe (c : ascii) :
  sforall (fun d => negb (is_reserved d)) (encode_char c) = true.
Proof. by_cases_on_char c. Qed.

(** X2.  The tag encoder never fails, and its result holds none of the
    seven reserved characters. *)
Theorem encode_tag_no_reserved (s : string) :
  exists r, _encode_tag s = Return r
            /\ sforall (fun d => negb (is_reserved d)) r = true.
Proof.
  exists (encode s). split; [apply encode_tag_encode |].
  induction s as [|c s IH]; [reflexivity |].
  cbn [encode]. now rewrite sforall_append, encode_char_safe, IH.
Qed.

Lemma encode_char_plain (c : ascii) :
  is_reserved c = false -> encode_char c = single c.
Proof. intros H. unfold encode_char. now rewrite H. Qed.

Lemma encode_plain (s : string) :
  sforall (fun d => negb (is_reserved d)) s = true -> encode s = s.
Proof.
  induction s as [|c s IH]; simpl; [reflexivity |].
  intros H. apply andb_true_iff in H as [Hc Hs].
  apply negb_true_iff in Hc. now rewrite (encode_char_plain c Hc), IH.
Qed.

(** X3.  A tag without reserved characters is its own encoding: when it is
    not empty and does not start with [-], its index file is
    [https://j.nozomi.la/nozomi/{tag}.nozomi]. *)
Theorem create_tag_filepath_plain (tag : string) :
  sforall (fun d => negb (is_reserved d)) tag = true ->
  _encode_tag tag = Return tag
  /\ (is_empty tag || starts_with "-" tag = false ->
      create_tag_filepath tag =
      Return ("https://j.nozomi.la/nozomi/" ++ tag ++ ".nozomi")).
Proof.
  intros H. split.
  - now rewrite encode_tag_encode, encode_plain.
  - intros Hv. now rewrite create_tag_filepath_unfold, Hv, encode_plain.
Qed.

Lemma create_tag_filepath_plain_witness :
  create_tag_filepath "blue sky"
  = Return "https://j.nozomi.la/nozomi/blue sky.nozomi".
Proof.
  exact (proj2 (create_tag_filepath_plain "blue sky" eq_refl) eq_refl).
Defined.

(** X4.  Encoding goes through concatenation: a tag can be encoded piece by
    piece. *)
Theorem encode_tag_append (a b : string) :
  _encode_tag (a ++ b) =
  (x <- _encode_tag a ;; y <- _encode_tag b ;; Return (x ++ y)).
Proof. rewrite !encode_tag_encode. cbn [bind]. now rewrite encode_append. Qed.

Lemma reserved_cases (c : ascii) :
  is_reserved c = true ->
  c = ";"%char \/ c = "/"%char \/ c = "?"%char \/ c = ":"%char
  \/ c = "@"%char \/ c = "="%char \/ c = "&"%char.
Proof. by_cases_on_char c; intuition congruence. Qed.

Lemma encode_char_reserved (c : ascii) :
  is_reserved c = true ->
  exists h1 h2, encode_char c = String "%" (String h1 (String h2 EmptyString)).
Proof.
  intros H.
  destruct (reserved_cases c H) as [-> | [-> | [-> | [-> | [-> | [-> | ->]]]]]];
    eexists; eexists; reflexivity.
Qed.

Lemma encode_char_inj (c d : ascii) :
  is_reserved c = true -> is_reserved d = true ->
  encode_char c = encode_char d -> c = d.
Proof.
  intros Hc Hd.
  destruct (reserved_cases c Hc) as [-> | [-> | [-> | [-> | [-> | [-> | ->]]]]]];
    destruct (reserved_cases d Hd) as [-> | [-> | [-> | [-> | [-> | [-> | ->]]]]]];
    vm_compute; intros H; solve [reflexivity | discriminate H].
Qed.

(** Without a [%] of its own, a tag can be read back from its encoding. *)
Lemma encode_inj (a : string) :
  forall b,
    mem "%" a = false -> mem "%" b = false ->
    encode a = encode b -> a = b.
Proof.
  induction a as [|c a IH]; intros [|d b] Ha Hb H.
  - reflexivity.
  - exfalso. cbn [encode] in H. unfold encode_char in H.
    destruct (is_reserved d); discriminate H.
  - exfalso. cbn [encode] in H. unfold encode_char in H.
    destruct (is_reserved c); discriminate H.
  - cbn [mem] in Ha, Hb.
    apply orb_false_iff in Ha as [Hc Ha]. apply orb_false_iff in Hb as [Hd Hb].
    cbn [encode] in H.
    destruct (is_reserved c) eqn:Rc; destruct (is_reserved d) eqn:Rd.
    + destruct (encode_char_reserved c Rc) as (h1 & h2 & Ec).
      destruct (encode_char_reserved d Rd) as (k1 & k2 & Ed).
      pose proof H as H'. rewrite Ec, Ed in H'. cbn [append] in H'.
      injection H' as -> -> Hrest.
      assert (c = d) by (apply encode_char_inj; congruence).
      subst d. now rewrite (IH b Ha Hb Hrest).
    + destruct (encode_char_reserved c Rc) as (h1 & h2 & Ec).
      rewrite Ec, (encode_char_plain d Rd) in H. cbn [append single] in H.
      injection H as <- _. now rewrite Ascii.eqb_refl in Hd.
    + destruct (encode_char_reserved d Rd) as (h1 & h2 & Ed).
      rewrite Ed, (encode_char_plain c Rc) in H. cbn [append single] in H.
      injection H as -> _. now rewrite Ascii.eqb_refl in Hc.
    + rewrite (encode_char_plain c Rc), (encode_char_plain d Rd) in H.
      cbn [append single] in H. injection H as -> Hrest.
      now rewrite (IH b Ha Hb Hrest).
Qed.

Lemma normalize_no_percent (tag : string) : mem "%" (normalize tag) = false.
Proof.
  apply negb_true_iff. rewrite <- sforall_mem.
  apply (sforall_impl (fun c => negb (is_invalid_char c))).
  - intros c H. apply negb_true_iff in H. apply negb_true_iff.
    unfold is_invalid_char in H. cbn [mem] in H.
    apply orb_false_iff in H as [_ H]. apply orb_false_iff in H as [_ H].
    now apply orb_false_iff in H as [H _].
  - apply sforall_sfilter.
Qed.

(** X5.  Two tags without [%] that get the same index file are the same
    tag; so are two sanitized tags.  The [%] matters: [%3b] and [;] share
    one index file. *)
Theorem create_tag_filepath_injective :
  (forall a b url,
      mem "%" a = false -> mem "%" b = false ->
      create_tag_filepath a = Return url ->
      create_tag_filepath b = Return url -> a = b)
  /\ (forall s t a b url,
         sanitize_tag s = Return a -> sanitize_tag t = Return b ->
         create_tag_filepath a = Return url ->
         create_tag_filepath b = Return url -> a = b)
  /\ create_tag_filepath "%3b" = create_tag_filepath ";".
Proof.
  assert (Hinj : forall a b url,
             mem "%" a = false -> mem "%" b = false ->
             create_tag_filepath a = Return url ->
             create_tag_filepath b = Return url -> a = b).
  { intros a b url Ha Hb. rewrite !create_tag_filepath_unfold.
    destruct (is_empty a || starts_with "-" a); [discriminate |].
    destruct (is_empty b || starts_with "-" b); [discriminate |].
    intros [= <-] [= H].
    apply append_inv_tail in H.
    symmetry. now apply encode_inj. }
  split; [exact Hinj |]. split; [| reflexivity].
  intros s t a b url Hs Ht. apply Hinj.
  - rewrite sanitize_tag_unfold in Hs.
    destruct (is_empty (normalize s)); [discriminate |].
    destruct (starts_with "-" (normalize s)); [discriminate |].
    injection Hs as <-. apply normalize_no_percent.
  - rewrite sanitize_tag_unfold in Ht.
    destruct (is_empty (normalize t)); [discriminate |].
    destruct (starts_with "-" (normalize t)); [discriminate |].
    injection Ht as <-. apply normalize_no_percent.
Qed.

Lemma create_tag_filepath_injective_witness :
  create_tag_filepath "a:b" = Return "https://j.nozomi.la/nozomi/a%3ab.nozomi"
  /\ "a:b" = "a:b".
Proof.
  split; [reflexivity |].
  exact (proj1 create_tag_filepath_injective "a:b" "a:b"
               "https://j.nozomi.la/nozomi/a%3ab.nozomi"
               eq_refl eq_refl eq_refl eq_refl).
Defined.

(** ** Sanitizing: what does not matter, and a second pass *)

Lemma space_lower (c : ascii) : is_space c = true -> lower_char c = c.
Proof. by_cases_on_char c. Qed.

Lemma lower_spaces (a : string) : sforall is_space a = true -> lower a = a.
Proof.
  unfold lower. induction a as [|c a IH]; simpl; [reflexivity |].
  intros H. apply andb_true_iff in H as [Hc Ha].
  now rewrite (space_lower c Hc), IH.
Qed.

Lemma lstrip_spaces (a s : string) :
  sforall is_space a = true -> lstrip (a ++ s) = lstrip s.
Proof.
  induction a as [|c a IH]; simpl; [reflexivity |].
  intros H. apply andb_true_iff in H as [-> Ha]. now apply IH.
Qed.

Lemma rstrip_spaces (s b : string) :
  sforall is_space b = true -> rstrip (s ++ b) = rstrip s.
Proof.
  intros Hb. induction s as [|c s IH]; simpl.
  - induction b as [|d b IHb]; simpl; [reflexivity |].
    simpl in Hb. apply andb_true_iff in Hb as [-> Hb].
    now rewrite (IHb Hb).
  - now rewrite IH.
Qed.

Lemma strip_spaces (a s b : string) :
  sforall is_space a = true -> sforall is_space b = true ->
  strip (a ++ s ++ b) = strip s.
Proof.
  intros Ha Hb. unfold strip. rewrite (lstrip_spaces a _ Ha).
  induction s as [|c s IH]; simpl.
  - rewrite <- (append_nil_r b) at 1.
    rewrite (lstrip_spaces b EmptyString Hb). reflexivity.
  - destruct (is_space c); [exact IH |].
    change (String c (s ++ b)) with (String c s ++ b).
    now rewrite rstrip_spaces.
Qed.

(** X6.  Blanks around a tag and the case of its letters do not matter to
    [sanitize_tag]: the outcome, error message included, is the same. *)
Theorem sanitize_tag_ignores (a tag b : string) :
  sforall is_space a = true -> sforall is_space b = true ->
  sanitize_tag (a ++ tag ++ b) = sanitize_tag tag
  /\ sanitize_tag (lower tag) = sanitize_tag tag.
Proof.
  intros Ha Hb. rewrite !sanitize_tag_unfold.
  assert (E1 : normalize (a ++ tag ++ b) = normalize tag).
  { unfold normalize, lower. rewrite !smap_append.
    fold (lower a) (lower b) (lower tag).
    rewrite (lower_spaces a Ha), (lower_spaces b Hb).
    now rewrite strip_spaces. }
  assert (E2 : normalize (lower tag) = normalize tag).
  { unfold normalize. now rewrite lower_idem. }
  now rewrite E1, E2.
Qed.

Lemma sanitize_tag_ignores_witness :
  sanitize_tag "  Red Hair " = sanitize_tag "Red Hair".
Proof.
  exact (proj1 (sanitize_tag_ignores "  " "Red Hair" " " eq_refl eq_refl)).
Defined.

Lemma sforall_lstrip (f : ascii -> bool) (s : string) :
  sforall f s = true -> sforall f (lstrip s) = true.
Proof.
  induction s as [|c s IH]; simpl; [reflexivity |].
  intros H. destruct (is_space c); [| exact H].
  apply andb_true_iff in H as [_ H]. now apply IH.
Qed.

Lemma sforall_rstrip (f : ascii -> bool) (s : string) :
  sforall f s = true -> sforall f (rstrip s) = true.
Proof.
  induction s as [|c s IH]; simpl; [reflexivity |].
  intros H. apply andb_true_iff in H as [Hc Hs].
  destruct (is_space c && is_empty (rstrip s)); [reflexivity |].
  simpl. now rewrite Hc, IH.
Qed.

(** X7.  Sanitizing the result of [sanitize_tag] once more only trims it:
    the second call validates and returns the trimmed text, and returns the
    same text when there is nothing to trim.  It can also reject it: the
    result of sanitizing [/ -a] is [ -a], which a second call refuses. *)
Theorem sanitize_tag_twice :
  (forall tag r,
      sanitize_tag tag = Return r ->
      normalize r = strip r
      /\ (strip r = r -> sanitize_tag r = Return r))
  /\ sanitize_tag "/ -a" = Return " -a"
  /\ sanitize_tag " -a"
     = Raise (InvalidTagFormat
                "The tag '-a' is invalid. Cannot begin with character '-'").
Proof.
  split; [| split; reflexivity].
  intros tag r. rewrite sanitize_tag_unfold.
  destruct (is_empty (normalize tag)) eqn:He; [discriminate |].
  destruct (starts_with "-" (normalize tag)) eqn:Hd; [discriminate |].
  intros [= <-].
  assert (Hn : normalize (normalize tag) = strip (normalize tag)).
  { unfold normalize at 1. rewrite normalize_lower.
    apply sfilter_id. unfold strip.
    apply sforall_rstrip, sforall_lstrip. apply sforall_sfilter. }
  split; [exact Hn |].
  intros Hs. rewrite sanitize_tag_unfold, Hn, Hs. now rewrite He, Hd.
Qed.

Lemma sanitize_tag_twice_witness :
  sanitize_tag "a b" = Return "a b".
Proof.
  exact (proj2 (proj1 sanitize_tag_twice " A/ B# " "a b" eq_refl) eq_refl).
Defined.

(** ** Shard paths tell identifiers apart *)

Lemma shard_path_shape (id : string) :
  (String.length id < 3 /\ shard_path id = id)
  \/ (3 <= String.length id
      /\ exists p, String.length p = 5 /\ shard_path id = p ++ id).
Proof.
  destruct (le_lt_dec 3 (String.length id)) as [H | H].
  - right. split; [exact H |].
    destruct (last_three id H) as (a & x & y & z & ->).
    exists (String z (String "/" (String x (String y (String "/" EmptyString))))).
    split; [reflexivity | apply shard_path_last_three].
  - left. split; [exact H |]. unfold shard_path.
    apply Nat.ltb_lt in H. now rewrite H.
Qed.

Lemma shard_path_inj (a b : string) : shard_path a = shard_path b -> a = b.
Proof.
  intros H.
  destruct (shard_path_shape a) as [[La Ea] | [La (p & Lp & Ea)]];
    destruct (shard_path_shape b) as [[Lb Eb] | [Lb (q & Lq & Eb)]];
    rewrite Ea, Eb in H.
  - exact H.
  - apply (f_equal String.length) in H. rewrite length_append in H. lia.
  - apply (f_equal String.length) in H. rewrite length_append in H. lia.
  - apply (append_eq_length p q a b H). lia.
Qed.

(** X8.  For identifiers without newline and backslash, the path that
    [_calculate_post_filepath] returns ends with the identifier itself, is
    five characters longer than it once the identifier has three characters,
    and two different identifiers never get the same path. *)
Theorem calculate_post_filepath_injective (a b : string) :
  plain a = true -> plain b = true ->
  (exists p, _calculate_post_filepath a = Return (p ++ a)
             /\ (3 <= String.length a -> String.length p = 5))
  /\ (_calculate_post_filepath a = _calculate_post_filepath b -> a = b).
Proof.
  intros Ha Hb. rewrite !calculate_post_filepath_plain by assumption. split.
  - destruct (shard_path_shape a) as [[La Ea] | [La (p & Lp & Ea)]].
    + exists EmptyString. rewrite Ea. split; [reflexivity | lia].
    + exists p. rewrite Ea. now split.
  - intros [= H]. now apply shard_path_inj.
Qed.

Lemma calculate_post_filepath_injective_witness :
  exists p, _calculate_post_filepath "0a1b" = Return (p ++ "0a1b").
Proof.
  destruct (proj1 (calculate_post_filepath_injective "0a1b" "ff" eq_refl eq_refl))
    as (p & H & _).
  exists p. exact H.
Defined.

(** X9.  Two different posts never share a JSON address: when
    [create_post_filepath] returns the same URL for two identifiers, they
    are equal. *)
Theorem create_post_filepath_injective (n m : Z) (url : string) :
  create_post_filepath n = Return url ->
  create_post_filepath m = Return url ->
  n = m.
Proof.
  rewrite !create_post_filepath_unfold.
  destruct (too_long (digit_count n)); [discriminate |].
  destruct (too_long (digit_count m)); [discriminate |].
  intros [= <-] [= H].
  apply append_inv_tail in H. symmetry. now apply decimal_inj, shard_path_inj.
Qed.

Lemma create_post_filepath_injective_witness :
  create_post_filepath 42 = Return "https://j.nozomi.la/post/42.json"
  /\ 42%Z = 42%Z.
Proof.
  split; [reflexivity |].
  exact (create_post_filepath_injective
           42%Z 42%Z "https://j.nozomi.la/post/42.json" eq_refl eq_refl).
Defined.

(** X10.  Two media of the same kind (same [is_video], same [type]) whose
    hashes have no newline and no backslash get the same address only when
    the hashes are equal. *)
Theorem create_media_filepath_injective (m1 m2 : MediaMetaData) :
  plain (dataid m1) = true -> plain (dataid m2) = true ->
  is_video m1 = is_video m2 -> type m1 = type m2 ->
  create_media_filepath m1 = create_media_filepath m2 ->
  dataid m1 = dataid m2.
Proof.
  intros H1 H2 Hv Ht.
  rewrite !create_media_filepath_plain by assumption.
  unfold subdomain, extension. rewrite Hv, Ht.
  intros [= H]. apply append_inv_head in H. injection H as H.
  apply append_inv_tail in H. now apply shard_path_inj.
Qed.

Lemma create_media_filepath_injective_witness : "0a1b2c" = "0a1b2c".
Proof.
  exact (create_media_filepath_injective
           (mkMedia "0a1b2c" false "jpg") (mkMedia "0a1b2c" false "jpg")
           eq_refl eq_refl eq_refl eq_refl eq_refl).
Defined.

(** ** When the shard function fails *)

Lemma parse_template_no_backslash (ng : nat) (s : string) :
  forall fuel,
    String.length s < fuel -> mem backslash s = false ->
    parse_template fuel ng s = Return (lits s).
Proof.
  induction s as [|c s IH]; intros fuel Hf Hp.
  - destruct fuel; [simpl in Hf; lia | reflexivity].
  - destruct fuel as [|fuel]; [simpl in Hf; lia |].
    simpl in Hf. cbn [mem] in Hp. apply orb_false_iff in Hp as [Hc Hs].
    cbn [parse_template]. rewrite Ascii.eqb_sym, Hc. cbn [negb].
    rewrite (IH fuel) by (assumption || lia). reflexivity.
Qed.

Lemma sub_loop_returns (r : regex) (f : rmatch -> outcome string) :
  (forall m, exists x, f m = Return x) ->
  forall s pos skip, exists out, sub_loop r f pos s skip = Return out.
Proof.
  intros Hf. induction s as [|c s IH]; intros pos skip.
  - destruct skip as [|n]; cbn [sub_loop]; [| eexists; reflexivity].
    destruct (match_at r pos EmptyString false) as [m |];
      [| eexists; reflexivity].
    destruct (Hf m) as [x Hx].
    destruct (m_end m =? pos)%nat.
    + rewrite Hx. cbn [bind].
      destruct (match_at r pos EmptyString true) as [m' |].
      * destruct (Hf m') as [x' Hx']. rewrite Hx'. eexists; reflexivity.
      * eexists; reflexivity.
    + rewrite Hx. eexists; reflexivity.
  - destruct skip as [|n]; cbn [sub_loop]; [| apply IH].
    destruct (match_at r pos (String c s) false) as [m |].
    + destruct (Hf m) as [x Hx].
      destruct (m_end m =? pos)%nat.
      * rewrite Hx. cbn [bind].
        destruct (match_at r pos (String c s) true) as [m' |].
        -- destruct (Hf m') as [x' Hx']. rewrite Hx'. cbn [bind].
           destruct (IH (S pos) (m_end m' - pos - 1)) as [o Ho].
           rewrite Ho. eexists; reflexivity.
        -- destruct (IH (S pos) 0) as [o Ho]. rewrite Ho. eexists; reflexivity.
      * rewrite Hx. cbn [bind].
        destruct (IH (S pos) (m_end m - pos - 1)) as [o Ho].
        rewrite Ho. eexists; reflexivity.
    + destruct (IH (S pos) 0) as [o Ho]. rewrite Ho. eexists; reflexivity.
Qed.

Lemma calculate_post_filepath_returns (id : string) :
  mem backslash id = false -> exists p, _calculate_post_filepath id = Return p.
Proof.
  intros Hb. unfold _calculate_post_filepath.
  destruct (String.length id <? 3)%nat; [eexists; reflexivity |].
  unfold re_sub.
  change (mem backslash ("\g<2>/\g<1>/" ++ id)) with true. cbv iota.
  change (ngroups shard_re) with 2.
  cbn [append String.length].
  rewrite parse_template_group2, parse_template_slash.
  rewrite parse_template_group1, parse_template_slash.
  rewrite parse_template_no_backslash by (assumption || lia).
  cbn [cons_part bind].
  apply sub_loop_returns. intros m. eexists; reflexivity.
Qed.

Lemma calculate_post_filepath_raises (id : string) (e : exn) :
  _calculate_post_filepath id = Raise e ->
  (e = re_error \/ e = IndexError) /\ 3 <= String.length id.
Proof.
  unfold _calculate_post_filepath.
  destruct (String.length id <? 3)%nat eqn:Hl; [discriminate |].
  apply Nat.ltb_ge in Hl. unfold re_sub.
  change (mem backslash ("\g<2>/\g<1>/" ++ id)) with true. cbv iota.
  destruct (parse_template (S (String.length ("\g<2>/\g<1>/" ++ id)))
                           (ngroups shard_re) ("\g<2>/\g<1>/" ++ id))
    as [ps | e'] eqn:Ep; cbn [bind].
  - destruct (sub_loop_returns shard_re (fun m => Return (expand ps m))
                (fun m => ex_intro _ (expand ps m) eq_refl) id 0 0) as [o Ho].
    rewrite Ho. discriminate.
  - intros [= <-]. split; [| exact Hl].
    now apply parse_template_error in Ep.
Qed.

(** X11.  [_calculate_post_filepath] fails only on an identifier of three
    characters or more that holds a backslash, and then with one of the two
    errors of the replacement template: [re.error] (as for [ab\q]) or
    [IndexError] (as for [a\g<x>b], an unknown group name).  An identifier
    without backslash always gets a path, and so does the media that
    carries it. *)
Theorem calculate_post_filepath_failure :
  (forall id e,
      _calculate_post_filepath id = Raise e ->
      (e = re_error \/ e = IndexError)
      /\ mem backslash id = true /\ 3 <= String.length id)
  /\ (forall id, mem backslash id = false ->
                 exists p, _calculate_post_filepath id = Return p)
  /\ (forall media, mem backslash (dataid media) = false ->
                    exists url, create_media_filepath media = Return url)
  /\ _calculate_post_filepath "ab\q" = Raise re_error
  /\ _calculate_post_filepath "a\g<x>b" = Raise IndexError.
Proof.
  split; [| split; [| split; [| split; reflexivity]]].
  - intros id e H.
    destruct (mem backslash id) eqn:Hb.
    + destruct (calculate_post_filepath_raises id e H) as [He Hl].
      now repeat split.
    + destruct (calculate_post_filepath_returns id Hb) as [p Hp].
      rewrite Hp in H. discriminate H.
  - exact calculate_post_filepath_returns.
  - intros media Hb.
    destruct (calculate_post_filepath_returns _ Hb) as [p Hp].
    unfold create_media_filepath. rewrite Hp.
    destruct (is_video media); [eexists; reflexivity |].
    destruct (type media =? "gif")%string; eexists; reflexivity.
Qed.

Lemma calculate_post_filepath_failure_witness :
  (IndexError = re_error \/ IndexError = IndexError)
  /\ mem backslash "a\g<x>b" = true /\ 3 <= String.length "a\g<x>b".
Proof.
  exact (proj1 calculate_post_filepath_failure "a\g<x>b" IndexError eq_refl).
Defined.

(** ** Which segment of the URL is read *)

Lemma split_first_leftmost (sep s : string) :
  forall a b,
    split_first sep s = Some (a, b) ->
    forall a' b', s = a' ++ sep ++ b' -> String.length a <= String.length a'.
Proof.
  induction s as [|c s IH]; intros a b H a' b' E.
  - cbn [split_first] in H.
    destruct (strip_prefix sep EmptyString); [| discriminate].
    injection H as <- _. simpl. lia.
  - cbn [split_first] in H.
    destruct (strip_prefix sep (String c s)) eqn:Ep.
    + injection H as <- _. simpl. lia.
    + destruct (split_first sep s) as [[a0 b0] |] eqn:Es; [| discriminate].
      injection H as <- <-.
      destruct a' as [|c' a''].
      * simpl in E. rewrite E, strip_prefix_append in Ep. discriminate.
      * simpl in E. injection E as _ E.
        specialize (IH a0 b0 eq_refl a'' b' E). simpl. lia.
Qed.

(** X12.  When [parse_post_id] returns, the URL splits as
    [a ++ "post/" ++ x ++ ".html" ++ b] where this [post/] is the first one
    of the URL and this [.html] the first one after it, and the value
    returned is the integer [x] denotes, or the text [x] itself when it
    denotes none. *)
Theorem parse_post_id_segment (url : string) (v : pyval) :
  parse_post_id url = Return v ->
  exists a x b,
    url = a ++ "post/" ++ x ++ ".html" ++ b
    /\ (forall a' r, url = a' ++ "post/" ++ r ->
                     String.length a <= String.length a')
    /\ (forall x' b', x ++ ".html" ++ b = x' ++ ".html" ++ b' ->
                      String.length x <= String.length x')
    /\ v = match int x with Some n => VInt n | None => VStr x end.
Proof.
  rewrite parse_post_id_unfold. unfold between.
  destruct (split_first "post/" url) as [[a r] |] eqn:Ea; [| discriminate].
  destruct (split_first ".html" r) as [[x b] |] eqn:Ex; [| discriminate].
  intros Hv. exists a, x, b.
  pose proof (split_first_sound _ _ _ _ Ea) as Eu.
  pose proof (split_first_sound _ _ _ _ Ex) as Er.
  split; [now rewrite Eu, Er |].
  split; [intros a' r'; apply (split_first_leftmost _ _ _ _ Ea) |].
  split.
  - intros x' b'. rewrite <- Er. apply (split_first_leftmost _ _ _ _ Ex).
  - destruct (int x); now injection Hv.
Qed.

Lemma parse_post_id_segment_witness :
  exists a x b,
    "/post/1.html/post/2.html" = a ++ "post/" ++ x ++ ".html" ++ b
    /\ VInt 1 = match int x with Some n => VInt n | None => VStr x end.
Proof.
  destruct (parse_post_id_segment "/post/1.html/post/2.html" (VInt 1) eq_refl)
    as (a & x & b & E & _ & _ & Hv).
  exists a, x, b. exact (conj E Hv).
Defined.

Lemma between_page (x b : string) :
  sforall (fun c => negb (c =? ".")%char) x = true ->
  between ("https://nozomi.la/post/" ++ x ++ ".html" ++ b) = Some x.
Proof.
  intros H.
  change (between ("https://nozomi.la/post/" ++ x ++ ".html" ++ b))
    with (match split_first ".html" (x ++ ".html" ++ b) with
          | Some (x0, _) => Some x0
          | None => None
          end).
  now rewrite split_first_here.
Qed.

(** X13.  The page address of post [n], whatever follows [.html], gives
    [n] back when [n] has at most 4300 digits; with more digits [int]
    refuses the text and the text itself is returned. *)
Theorem parse_post_id_roundtrip (n : Z) (b : string) :
  parse_post_id ("https://nozomi.la/post/" ++ decimal n ++ ".html" ++ b)
  = if too_long (digit_count n) then Return (VStr (decimal n))
    else Return (VInt n).
Proof.
  rewrite parse_post_id_unfold, between_page by apply decimal_no_dot.
  rewrite int_decimal. now destruct (too_long (digit_count n)).
Qed.

Lemma digit_value_nonneg (c : ascii) :
  is_digit c = true -> (0 <= digit_value c)%Z.
Proof. by_cases_on_char c; intros H; discriminate H. Qed.

Lemma scan_digits_digits (x : string) :
  forall st cnt acc,
    sforall is_digit x = true ->
    x <> EmptyString \/ st = AfterDigit ->
    (0 <= acc)%Z ->
    exists n, (0 <= n)%Z
              /\ scan_digits st cnt acc x
                 = if too_long (cnt + String.length x) then None else Some n.
Proof.
  induction x as [|c x IH]; intros st cnt acc Hd Hst Hacc.
  - destruct Hst as [H | ->]; [congruence |]. exists acc.
    split; [exact Hacc |]. cbn [scan_digits sforall String.length].
    now rewrite Nat.add_0_r.
  - simpl in Hd. apply andb_true_iff in Hd as [Hc Hx].
    cbn [scan_digits String.length]. rewrite Hc, Nat.add_succ_r.
    apply (IH AfterDigit (S cnt)); [exact Hx | now right |].
    pose proof (digit_value_nonneg c Hc). lia.
Qed.

(** X14.  A segment [post/<digits>.html] of at most 4300 digits always
    gives a non-negative integer, leading zeros included; a longer run of
    digits is returned as text. *)
Theorem parse_post_id_digits (x b : string) :
  x <> EmptyString -> sforall is_digit x = true ->
  (String.length x <= max_str_digits ->
   exists n, (0 <= n)%Z
             /\ parse_post_id ("https://nozomi.la/post/" ++ x ++ ".html" ++ b)
                = Return (VInt n))
  /\ (max_str_digits < String.length x ->
      parse_post_id ("https://nozomi.la/post/" ++ x ++ ".html" ++ b)
      = Return (VStr x)).
Proof.
  intros Hne Hd.
  assert (Hdot : sforall (fun c => negb (c =? ".")%char) x = true).
  { apply (sforall_impl is_digit); [| exact Hd].
    intros c Hc. destruct (digit_not_sign c Hc) as (_ & _ & _ & ->). reflexivity. }
  rewrite parse_post_id_unfold, (between_page x b Hdot).
  assert (Hi : exists n, (0 <= n)%Z
                         /\ int x = if too_long (String.length x)
                                    then None else Some n).
  { destruct x as [|c x]; [congruence |].
    pose proof Hd as Hd'. simpl in Hd'. apply andb_true_iff in Hd' as [Hc _].
    destruct (digit_not_sign c Hc) as (Hs & Hm & Hp & _).
    unfold int. cbn [skip_int_space]. rewrite Hs, Hm, Hp.
    apply (scan_digits_digits (String c x) AtStart 0 0 Hd);
      [left; discriminate | lia]. }
  destruct Hi as (n & Hn & Hi). rewrite Hi. split; intros Hl.
  - apply too_long_false in Hl. rewrite Hl. now exists n.
  - apply too_long_true in Hl. now rewrite Hl.
Qed.

Lemma parse_post_id_digits_witness :
  exists n, (0 <= n)%Z
            /\ parse_post_id "https://nozomi.la/post/007.html#top" = Return (VInt n).
Proof.
  apply (proj1 (parse_post_id_digits "007" "#top"
                  ltac:(discriminate) eq_refl)).
  apply too_long_false. reflexivity.
Defined.

(** ** Tags that are refused *)

Lemma strip_blank (t : string) :
  sforall is_space t = true -> strip t = EmptyString.
Proof.
  intros H. unfold strip.
  rewrite <- (append_nil_r t), (lstrip_spaces t EmptyString H). reflexivity.
Qed.

Lemma invalid_not_space (c : ascii) :
  is_invalid_char c = true -> is_space c = false /\ lower_char c = c.
Proof. by_cases_on_char c. Qed.

Lemma normalize_invalid_only (t : string) :
  sforall is_invalid_char t = true -> normalize t = EmptyString.
Proof.
  intros H. unfold normalize.
  assert (Hl : lower t = t).
  { unfold lower. induction t as [|c t IH]; simpl; [reflexivity |].
    simpl in H. apply andb_true_iff in H as [Hc Ht].
    destruct (invalid_not_space c Hc) as [_ ->]. now rewrite IH. }
  assert (Hs : sforall (fun c => negb (is_space c)) t = true).
  { apply (sforall_impl is_invalid_char); [| exact H].
    intros c Hc. destruct (invalid_not_space c Hc) as [-> _]. reflexivity. }
  rewrite Hl. unfold strip. rewrite (lstrip_id t Hs), (rstrip_id t Hs).
  clear Hl Hs. induction t as [|c t IH]; simpl; [reflexivity |].
  simpl in H. apply andb_true_iff in H as [-> Ht]. now apply IH.
Qed.

(** X15.  A tag made of blanks only, or of the characters [/], [#], [%]
    only, is refused as empty.  A mix of the two is not always refused:
    [/ /] is sanitized to a single blank. *)
Theorem sanitize_tag_blank (tag : string) :
  sforall is_space tag = true \/ sforall is_invalid_char tag = true ->
  sanitize_tag tag
  = Raise (InvalidTagFormat "The tag '' is invalid. Cannot be empty.")
  /\ sanitize_tag "/ /" = Return " ".
Proof.
  intros H. split; [| reflexivity].
  rewrite sanitize_tag_unfold.
  assert (E : normalize tag = EmptyString).
  { destruct H as [H | H].
    - unfold normalize. rewrite (lower_spaces tag H), (strip_blank tag H).
      reflexivity.
    - now apply normalize_invalid_only. }
  now rewrite E.
Qed.

Lemma sanitize_tag_blank_witness :
  sanitize_tag "   "
  = Raise (InvalidTagFormat "The tag '' is invalid. Cannot be empty.").
Proof.
  exact (proj1 (sanitize_tag_blank "   " (or_introl eq_refl))).
Defined.

(** ** Posts below one hundred *)

Lemma decimal_long (n : Z) :
  (100 <= n)%Z -> 3 <= String.length (decimal n).
Proof.
  intros Hn.
  assert (H0 : (0 <= n)%Z) by lia.
  pose proof (decimal_bound n H0) as Hb.
  unfold digit_count in Hb. rewrite Z.abs_eq in Hb by exact H0.
  destruct (le_lt_dec 3 (String.length (decimal n))) as [Hl | Hl];
    [exact Hl | exfalso].
  assert (Hpow : (10 ^ Z.of_nat (String.length (decimal n)) <= 10 ^ 2)%Z)
    by (apply Z.pow_le_mono_r; lia).
  lia.
Qed.

Lemma decimal_small (n : Z) :
  (0 <= n < 100)%Z -> String.length (decimal n) < 3.
Proof.
  intros Hn.
  assert (H : exists k : nat, n = Z.of_nat k /\ k < 100)
    by (exists (Z.to_nat n); lia).
  destruct H as (k & -> & Hk).
  do 100 (destruct k as [|k]; [vm_compute; lia |]). lia.
Qed.

(** X16.  Posts 0 to 99 are not sharded: their JSON file is
    [https://j.nozomi.la/post/{n}.json].  Every post from 100 on, of at most
    4300 digits, lies two directories deep, five characters before its
    number. *)
Theorem create_post_filepath_threshold (n : Z) :
  ((0 <= n < 100)%Z ->
   create_post_filepath n =
   Return ("https://j.nozomi.la/post/" ++ decimal n ++ ".json"))
  /\ ((100 <= n)%Z -> digit_count n <= max_str_digits ->
      exists p, String.length p = 5
                /\ create_post_filepath n =
                   Return ("https://j.nozomi.la/post/" ++ p ++ decimal n
                             ++ ".json")).
Proof.
  rewrite create_post_filepath_unfold. split.
  - intros Hn. pose proof (decimal_small n Hn) as Hs.
    assert (Ht : too_long (digit_count n) = false).
    { apply too_long_false. unfold digit_count. rewrite Z.abs_eq by lia.
      apply Nat.le_trans with 3; [lia |].
      apply too_long_false. reflexivity. }
    rewrite Ht.
    destruct (shard_path_shape (decimal n)) as [[_ ->] | [Hl _]];
      [reflexivity | lia].
  - intros Hn Hd. apply too_long_false in Hd. rewrite Hd.
    destruct (shard_path_shape (decimal n)) as [[Hl _] | [_ (p & Lp & ->)]].
    + pose proof (decimal_long n Hn). lia.
    + exists p. split; [exact Lp |]. now rewrite append_assoc.
Qed.

Lemma create_post_filepath_threshold_witness :
  create_post_filepath 99 = Return "https://j.nozomi.la/post/99.json"
  /\ exists p, String.length p = 5
               /\ create_post_filepath 100 =
                  Return ("https://j.nozomi.la/post/" ++ p ++ "100.json").
Proof.
  split.
  - apply (proj1 (create_post_filepath_threshold 99)). lia.
  - apply (proj2 (create_post_filepath_threshold 100)); [lia |].
    apply too_long_false. reflexivity.
Defined.

(** ** JSON addresses are not page addresses *)

Lemma split_first_json (x : string) :
  sforall (fun c => negb (c =? ".")%char) x = true ->
  split_first ".html" (x ++ ".json") = None.
Proof.
  induction x as [|c x IH]; intros H.
  - reflexivity.
  - simpl in H. apply andb_true_iff in H as [Hc Hx].
    change (String c x ++ ".json") with (String c (x ++ ".json")).
    cbn [split_first strip_prefix].
    rewrite Ascii.eqb_sym. apply negb_true_iff in Hc. rewrite Hc.
    now rewrite (IH Hx).
Qed.

Lemma shard_path_no_dot (s : string) :
  sforall (fun c => negb (c =? ".")%char) s = true ->
  sforall (fun c => negb (c =? ".")%char) (shard_path s) = true.
Proof.
  intros H.
  destruct (le_lt_dec 3 (String.length s)) as [Hl | Hl].
  - destruct (last_three s Hl) as (a & x & y & z & ->).
    rewrite shard_path_last_three.
    rewrite sforall_append in H. apply andb_true_iff in H as [Ha Hxyz].
    cbn [sforall] in Hxyz.
    apply andb_true_iff in Hxyz as [Hx Hxyz].
    apply andb_true_iff in Hxyz as [Hy Hxyz].
    apply andb_true_iff in Hxyz as [Hz _].
    cbn [single append sforall].
    rewrite Hz, Hx, Hy, sforall_append, Ha. cbn [sforall].
    now rewrite Hx, Hy, Hz.
  - unfold shard_path. apply Nat.ltb_lt in Hl. now rewrite Hl.
Qed.

(** X17.  An address that [create_post_filepath] returns is never read
    as a page address: [parse_post_id] refuses it with [InvalidUrlFormat]. *)
Theorem parse_post_id_of_json (n : Z) (url : string) :
  create_post_filepath n = Return url ->
  parse_post_id url
  = Raise (InvalidUrlFormat ["The provided URL %s could not be parsed."; url]).
Proof.
  rewrite create_post_filepath_unfold.
  destruct (too_long (digit_count n)); [discriminate |].
  intros H.
  assert (E : url = "https://j.nozomi.la/post/" ++ shard_path (decimal n)
                      ++ ".json") by (now injection H).
  rewrite E, parse_post_id_unfold.
  change (between ("https://j.nozomi.la/post/" ++ shard_path (decimal n)
                     ++ ".json"))
    with (match split_first ".html" (shard_path (decimal n) ++ ".json") with
          | Some (x0, _) => Some x0
          | None => None
          end).
  rewrite split_first_json; [reflexivity |].
  apply shard_path_no_dot, decimal_no_dot.
Qed.

Lemma parse_post_id_of_json_witness :
  parse_post_id "https://j.nozomi.la/post/3/12/123.json"
  = Raise (InvalidUrlFormat ["The provided URL %s could not be parsed.";
                             "https://j.nozomi.la/post/3/12/123.json"]).
Proof.
  exact (parse_post_id_of_json 123%Z "https://j.nozomi.la/post/3/12/123.json"
                               eq_refl).
Defined.
